(** * MorphMan: the morphemizers of [morph/morphemizer.py]

    A shallow embedding of the five segmentation strategies, the
    memoising entry point [Morphemizer.getMorphemesFromExpr], the
    registry [getAllMorphemizers] / [getMorphemizerByName] and the
    vocabulary loading of [VietnameseMorphemizer], followed by the
    properties of the specification that concern them.

    Conventions.  A Python [str] is the list of its code points
    ([list N]).  Code that may raise returns a [result]; code that reads
    or writes module-level or class-level objects threads a [State].
    What lives outside the file (the Unicode character database behind
    [str.lower] and the [re] module, the character class of
    [deps.zhon.hanzi], the MeCab and jieba back ends, the frequency file)
    is a parameter of the definitions that use it. *)

From Stdlib Require Import NArith Ascii String List Bool Lia Sorted.
From stdpp Require Import base option list sorting gmap strings.

Local Open Scope N_scope.

(** ** Python strings *)

Abbreviation char := N (only parsing).
Abbreviation str := (list N) (only parsing).

(** Decoding of a UTF-8 literal of this file into code points; it only
    serves to write the strings of the source and of the specification
    legibly. *)
Definition cont (a : ascii) : N := N.land (N_of_ascii a) 63.

Fixpoint utf8 (s : string) : str :=
  match s with
  | EmptyString => []
  | String a s1 =>
    let b := N_of_ascii a in
    if b <? 128 then b :: utf8 s1
    else
      match s1 with
      | EmptyString => [b]
      | String a1 s2 =>
        if b <? 224 then (N.shiftl (N.land b 31) 6 + cont a1) :: utf8 s2
        else
          match s2 with
          | EmptyString => [b]
          | String a2 s3 =>
            if b <? 240
            then (N.shiftl (N.land b 15) 12 + N.shiftl (cont a1) 6 + cont a2)
                   :: utf8 s3
            else
              match s3 with
              | EmptyString => [b]
              | String a3 s4 =>
                (N.shiftl (N.land b 7) 18 + N.shiftl (cont a1) 12
                 + N.shiftl (cont a2) 6 + cont a3) :: utf8 s4
              end
          end
      end
  end.

Definition SPACE : char := 32.
Definition UNDERSCORE : char := 95.

(** [c in s] for a one-character [c]. *)
Definition str_contains (c : char) (s : str) : bool := existsb (N.eqb c) s.

(** [s.startswith(p)] *)
Fixpoint startswith (p s : str) : bool :=
  match p, s with
  | [], _ => true
  | _ :: _, [] => false
  | a :: p', b :: s' => (a =? b) && startswith p' s'
  end.

(** [s.replace(old, new)]: every occurrence of [old], found from left to
    right without overlap, becomes [new].  [skip] counts the characters
    of an occurrence already replaced that are still to be passed over.
    For the empty [old] Python puts [new] before every character and at
    the end. *)
Fixpoint replace_from (old new s : str) (skip : nat) : str :=
  match s with
  | [] => []
  | c :: s' =>
    match skip with
    | S k => replace_from old new s' k
    | O =>
      if startswith old s
      then new ++ replace_from old new s' (Nat.pred (length old))
      else c :: replace_from old new s' 0
    end
  end.

Definition str_replace (old new s : str) : str :=
  match old with
  | [] => new ++ flat_map (fun c => c :: new) s
  | _ :: _ => replace_from old new s 0
  end.

(** ** The Unicode character database

    What [str.lower] and the [re] module (with a [str] pattern) ask of
    it: [\s] is [str.isspace], [\d] is [str.isdecimal], [\w] is
    [str.isalnum] or an underscore, and [str.lower] maps every code
    point to its full lower-case mapping, which can be longer than one
    code point, except that it lowers a capital sigma by its context,
    for which it asks whether a character is cased and whether it is
    case-ignorable. *)
Record Unicode := {
  is_space : char -> bool;
  is_decimal : char -> bool;
  is_alnum : char -> bool;
  lower_char : char -> str;
  is_cased : char -> bool;
  is_case_ignorable : char -> bool
}.

Definition CAPITAL_SIGMA : char := 931.
Definition SMALL_FINAL_SIGMA : char := 962.
Definition SMALL_SIGMA : char := 963.

(** ** [str.lower] *)

Section Lower.
Variable U : Unicode.

(** The first character of [s] that is not case-ignorable. *)
Fixpoint skip_ignorable (s : str) : option char :=
  match s with
  | [] => None
  | c :: s' => if is_case_ignorable U c then skip_ignorable s' else Some c
  end.

(** Whether a capital sigma is final: [before] are the characters
    before it, the nearest first, [after] those after it.  Case-ignorable
    characters passed over, a cased character comes before it and none
    after it. *)
Definition final_sigma (before after : str) : bool :=
  match skip_ignorable before with
  | Some c =>
    is_cased U c
    && match skip_ignorable after with
       | Some d => negb (is_cased U d)
       | None => true
       end
  | None => false
  end.

(** The lower case of [s], [before] being the characters already
    passed, the nearest first. *)
Fixpoint lower_from (before s : str) : str :=
  match s with
  | [] => []
  | c :: s' =>
    (if c =? CAPITAL_SIGMA
     then [if final_sigma before s' then SMALL_FINAL_SIGMA else SMALL_SIGMA]
     else lower_char U c)
    ++ lower_from (c :: before) s'
  end.

(** [s.lower()] *)
Definition str_lower (s : str) : str := lower_from [] s.
End Lower.

(** ** The regular expression [\b[^\s\d]+\b] *)

Section Regex.
Variable U : Unicode.

Definition is_word (c : char) : bool := is_alnum U c || (c =? UNDERSCORE).

Definition word_at (c : option char) : bool :=
  match c with Some c => is_word c | None => false end.

(** [\b] between the character [prev] before the position and the
    character [next] at it; outside the string counts as non-word. *)
Definition at_boundary (prev next : option char) : bool :=
  xorb (word_at prev) (word_at next).

(** [[^\s\d]] *)
Definition token_char (c : char) : bool :=
  negb (is_space U c) && negb (is_decimal U c).

(** [[^\s\d]+\b] after [p] has been consumed: the number of further
    characters taken.  The repetition is greedy and gives characters
    back one at a time until [\b] holds. *)
Fixpoint greedy_end (p : char) (rest : str) : option nat :=
  let stop := if at_boundary (Some p) (head rest) then Some O else None in
  match rest with
  | [] => stop
  | c :: rest' =>
    if token_char c then
      match greedy_end c rest' with
      | Some n => Some (S n)
      | None => stop
      end
    else stop
  end.

(** The length of the match of the whole pattern at the head of [s],
    [prev] being the character before it. *)
Definition match_at (prev : option char) (s : str) : option nat :=
  match s with
  | [] => None
  | c :: rest =>
    if at_boundary prev (Some c) && token_char c
    then S <$> greedy_end c rest
    else None
  end.

(** [re.findall]: the matches from left to right, the search resuming
    where the last match ended.  [skip] counts the characters of the
    last match still to be passed over. *)
Fixpoint findall_from (prev : option char) (s : str) (skip : nat) : list str :=
  match s with
  | [] => []
  | c :: s' =>
    match skip with
    | S k => findall_from (Some c) s' k
    | O =>
      match match_at prev s with
      | Some n => take n s :: findall_from (Some c) s' (Nat.pred n)
      | None => findall_from (Some c) s' 0
      end
    end
  end.

Definition findall_words (s : str) : list str := findall_from None s 0.
End Regex.

(** ** Morphemes *)

(** Modelled from the spec: the class [Morpheme] of [morph/morphemes.py],
    which the morphemizers construct with six positional arguments
    (normalized form, base form, inflected form, reading, part of
    speech, secondary tag) and whose [base] attribute the Vietnamese
    morphemizer assigns. *)
Record Morpheme := mkMorpheme {
  norm : str;
  base : str;
  inflected : str;
  read : str;
  pos : str;
  subPos : str
}.

Definition set_base (b : str) (m : Morpheme) : Morpheme :=
  mkMorpheme (norm m) b (inflected m) (read m) (pos m) (subPos m).

Definition UNKNOWN : str := utf8 "UNKNOWN".
Definition CJK_CHAR : str := utf8 "CJK_CHAR".

(** ** SpaceMorphemizer *)

Module SpaceMorphemizer.
Definition _getMorphemesFromExpr (U : Unicode) (expression : str) : list Morpheme :=
  let word_list := map (str_lower U) (findall_words U expression) in
  map (fun word => mkMorpheme word word word word UNKNOWN UNKNOWN) word_list.

Definition getDescription : str := utf8 "Language w/ Spaces".
End SpaceMorphemizer.

(** ** A fragment of the Unicode character database

    Exact on Basic Latin, Latin-1 Supplement, Latin Extended-A, Latin
    Extended Additional, the letters O and U with horn of Latin
    Extended-B, the Combining Diacritical Marks, the Greek letters from
    U+0391 to U+03CE, the circled Latin letters and the CJK Unified
    Ideographs; a code point outside these is classed as a caseless
    symbol that is neither word, space nor digit. *)
Module UCD.
Definition between (lo hi c : N) : bool := (lo <=? c) && (c <=? hi).

Definition isspace (c : char) : bool :=
  between 9 13 c || between 28 32 c || (c =? 133) || (c =? 160).

Definition isdecimal (c : char) : bool := between 48 57 c.

Definition isalnum (c : char) : bool :=
  between 48 57 c || between 65 90 c || between 97 122 c
  || (c =? 170) || (c =? 178) || (c =? 179) || (c =? 181)
  || between 185 186 c || between 188 190 c
  || between 192 214 c || between 216 246 c || between 248 383 c
  || between 416 417 c || between 431 432 c
  || between 7680 7935 c || between 19968 40959 c
  || between 913 929 c || between 931 974 c.

Definition lower (c : char) : str :=
  if between 65 90 c || between 192 214 c || between 216 222 c then [c + 32]
  else if c =? 304 then [105; 775]
  else if c =? 376 then [255]
  else if c =? 7838 then [223]
  else if (between 256 303 c || between 306 311 c || between 330 375 c
           || (c =? 416) || between 7680 7829 c || between 7840 7935 c)
          && N.even c then [c + 1]
  else if (between 313 328 c || between 377 382 c || (c =? 431))
          && N.odd c then [c + 1]
  else if between 913 929 c || between 931 939 c then [c + 32]
  else if between 9398 9423 c then [c + 26]
  else [c].

Definition iscased (c : char) : bool :=
  between 65 90 c || between 97 122 c
  || (c =? 170) || (c =? 181) || (c =? 186)
  || between 192 214 c || between 216 246 c || between 248 383 c
  || between 416 417 c || between 431 432 c || (c =? 837)
  || between 913 929 c || between 931 974 c
  || between 7680 7935 c || between 9398 9449 c.

Definition iscaseignorable (c : char) : bool :=
  (c =? 39) || (c =? 46) || (c =? 58) || (c =? 94) || (c =? 96)
  || (c =? 168) || (c =? 173) || (c =? 175) || (c =? 180)
  || between 183 184 c || between 768 879 c.

Definition table : Unicode :=
  {| is_space := isspace; is_decimal := isdecimal;
     is_alnum := isalnum; lower_char := lower;
     is_cased := iscased; is_case_ignorable := iscaseignorable |}.
End UCD.

(** ** Exceptions, results and the program state *)

Inductive exn :=
| FileNotFoundError
| PermissionError
| IsADirectoryError
| UnicodeDecodeError
| IndexError
| AttributeError
| KeyError
| TypeError
| RuntimeError (msg : string).

Inductive result (A : Type) :=
| Ok (a : A)
| Raise (e : exn).
Arguments Ok {A} a.
Arguments Raise {A} e.

(** The classes of the file. *)
Inductive class :=
| Base | Space | Mecab | Jieba | CjkChar | Vietnamese.

#[global] Instance class_eq_dec : EqDecision class.
Proof. solve_decision. Defined.

(** Objects have an identity; list objects live in a heap and are
    reached through the attribute dictionaries of instances and
    classes. *)
Definition loc := nat.

Record instance := mkInstance {
  inst_id : loc;
  inst_class : class;
  inst_dict : gmap string loc
}.

#[global] Instance instance_eq_dec : EqDecision instance.
Proof. solve_decision. Defined.

(** The attributes a class body binds when the module is imported:
    [VietnameseMorphemizer] binds two (empty) list objects. *)
Definition known_words_loc : loc := 0%nat.
Definition known_words_underscored_loc : loc := 1%nat.

Definition class_dict (c : class) : gmap string loc :=
  match c with
  | Vietnamese =>
    <["_known_words"%string := known_words_loc]>
      (<["_known_words_underscored"%string := known_words_underscored_loc]> ∅)
  | _ => ∅
  end.

Record State := mkState {
  next_id : loc;
  heap : gmap loc (list str);
  morphemizers : option (list instance);
  morphemizers_by_name : gmap str instance;
  (* the cache of [lru_cache], most recently used entry first *)
  cache : list ((instance * str) * list Morpheme);
  (* instrumentation: how often [_getMorphemesFromExpr] was entered from
     the memoised entry point *)
  executions : nat
}.

(** The state once the module is imported. *)
Definition initial : State :=
  {| next_id := 2%nat;
     heap := <[known_words_loc := []]> (<[known_words_underscored_loc := []]> ∅);
     morphemizers := None;
     morphemizers_by_name := ∅;
     cache := [];
     executions := 0%nat |}.

(** *** The state and exception monad *)

Definition M (A : Type) : Type := State -> result A * State.

Definition ret {A} (a : A) : M A := fun st => (Ok a, st).
Definition raise {A} (e : exn) : M A := fun st => (Raise e, st).
Definition lift {A} (r : result A) : M A := fun st => (r, st).

Definition bind {A B} (m : M A) (k : A -> M B) : M B :=
  fun st =>
    match m st with
    | (Ok a, st') => k a st'
    | (Raise e, st') => (Raise e, st')
    end.

Declare Scope py_scope.
Delimit Scope py_scope with py.
Notation "x <- m ;; k" := (bind m (fun x => k))
  (at level 100, m at next level, right associativity) : py_scope.
Notation "m ;;; k" := (bind m (fun _ => k))
  (at level 100, right associativity) : py_scope.
Local Open Scope py_scope.

Definition get : M State := fun st => (Ok st, st).
Definition modify (f : State -> State) : M unit := fun st => (Ok tt, f st).

(** [try: m except <handled>: h] *)
Definition try_except {A} (m : M A) (handled : exn -> bool) (h : M A) : M A :=
  fun st =>
    match m st with
    | (Raise e, st') => if handled e then h st' else (Raise e, st')
    | r => r
    end.

(** [for x in l: body] *)
Fixpoint for_each {A} (l : list A) (body : A -> M unit) : M unit :=
  match l with
  | [] => ret tt
  | x :: l' => body x ;;; for_each l' body
  end.

(** [l[i]] *)
Definition index {A} (l : list A) (i : nat) : result A :=
  match l !! i with
  | Some x => Ok x
  | None => Raise IndexError
  end.

(** Attribute lookup [self.name]: the instance dictionary first, then
    the class. *)
Definition getattr (self : instance) (name : string) : result loc :=
  match inst_dict self !! name with
  | Some l => Ok l
  | None =>
    match class_dict (inst_class self) !! name with
    | Some l => Ok l
    | None => Raise AttributeError
    end
  end.

Definition deref (st : State) (l : loc) : list str := default [] (heap st !! l).

(** [lst.append(w)] on the list object at [l]. *)
Definition list_append (l : loc) (w : str) : M unit :=
  modify (fun st =>
    mkState (next_id st) (<[l := deref st l ++ [w]]> (heap st))
            (morphemizers st) (morphemizers_by_name st) (cache st) (executions st)).

(** ** What lies outside the file *)
Record World := {
  unicode : Unicode;
  (* membership in the character class [[%s] % characters] of zhon.hanzi *)
  characters : char -> bool;
  getMorphemesMecab : str -> result (list Morpheme);
  getMecabIdentity : result str;
  (* [posseg.cut]: the pairs (word, flag) *)
  posseg_cut : str -> result (list (str * str));
  (* what resolving [cfg('path_frequency')], opening the file, decoding
     it and reading all its rows with [csv.reader] comes to *)
  frequency_rows : result (list (list str))
}.

(** State updates, one per mutable component. *)
Definition set_next_id (n : loc) (st : State) : State :=
  mkState n (heap st) (morphemizers st) (morphemizers_by_name st) (cache st) (executions st).
Definition set_morphemizers (l : option (list instance)) (st : State) : State :=
  mkState (next_id st) (heap st) l (morphemizers_by_name st) (cache st) (executions st).
Definition set_by_name (d : gmap str instance) (st : State) : State :=
  mkState (next_id st) (heap st) (morphemizers st) d (cache st) (executions st).
Definition set_cache (c : list ((instance * str) * list Morpheme)) (st : State) : State :=
  mkState (next_id st) (heap st) (morphemizers st) (morphemizers_by_name st) c (executions st).
Definition count_execution (st : State) : State :=
  mkState (next_id st) (heap st) (morphemizers st) (morphemizers_by_name st) (cache st)
          (S (executions st)).

(** ** Python lists and dictionaries *)

(** [words.sort(key=len)]: stable, ascending. *)
Fixpoint insert_by_len (w : str) (l : list str) : list str :=
  match l with
  | [] => [w]
  | x :: l' =>
    if (length w <=? length x)%nat then w :: l else x :: insert_by_len w l'
  end.

Fixpoint sort_by_len (l : list str) : list str :=
  match l with
  | [] => []
  | w :: l' => insert_by_len w (sort_by_len l')
  end.

(** A [dict] keeps its keys in the order of their first insertion;
    setting a key that is present only changes its value. *)
Fixpoint dict_set {V} (k : str) (v : V) (d : list (str * V)) : list (str * V) :=
  match d with
  | [] => [(k, v)]
  | (k', v') :: d' =>
    if decide (k = k') then (k', v) :: d' else (k', v') :: dict_set k v d'
  end.

(** [dict(items)] *)
Definition dict_of {V} (items : list (str * V)) : list (str * V) :=
  fold_left (fun d kv => dict_set kv.1 kv.2 d) items [].

(** [list(d.keys())] *)
Definition dict_keys {V} (d : list (str * V)) : list str := map fst d.

(** [[f(x) for x in l]] where [f] may raise. *)
Fixpoint comprehension {A B} (f : A -> result B) (l : list A) : result (list B) :=
  match l with
  | [] => Ok []
  | x :: l' =>
    match f x with
    | Raise e => Raise e
    | Ok y =>
      match comprehension f l' with
      | Raise e => Raise e
      | Ok ys => Ok (y :: ys)
      end
    end
  end.

(** ** The base class Morphemizer *)

Module Morphemizer.
Definition __init__ (self : instance) : M unit := ret tt.

(** The method of the base class, which every subclass overrides. *)
Definition _getMorphemesFromExpr (expression : str) : list Morpheme := [].

Definition getDescription : str := utf8 "No information available".

(** [self.__class__.__name__] *)
Definition getName (self : instance) : str :=
  match inst_class self with
  | Base => utf8 "Morphemizer"
  | Space => utf8 "SpaceMorphemizer"
  | Mecab => utf8 "MecabMorphemizer"
  | Jieba => utf8 "JiebaMorphemizer"
  | CjkChar => utf8 "CjkCharMorphemizer"
  | Vietnamese => utf8 "VietnameseMorphemizer"
  end.
End Morphemizer.

(** ** MecabMorphemizer *)

Module MecabMorphemizer.
Definition _getMorphemesFromExpr (W : World) (expression : str) : M (list Morpheme) :=
  let expression :=
    if existsb (N.eqb SPACE) expression
    then filter (fun c => c ≠ SPACE) expression
    else expression in
  lift (getMorphemesMecab W expression).

Definition getDescription (W : World) : M str :=
  identity <- try_except (lift (getMecabIdentity W)) (fun _ => true)
                         (ret (utf8 "UNAVAILABLE"));;
  ret (utf8 "Japanese " ++ identity).
End MecabMorphemizer.

(** ** VietnameseMorphemizer *)

Module VietnameseMorphemizer.
Definition _setKnownWords (self : instance) (words : list str) : M unit :=
  let words := rev (sort_by_len words) in
  for_each words (fun word =>
    if str_contains SPACE word then
      known <- lift (getattr self "_known_words");;
      list_append known word;;;
      underscored <- lift (getattr self "_known_words_underscored");;
      list_append underscored (str_replace [SPACE] [UNDERSCORE] word)
    else ret tt).

Definition study_plan_header : str := utf8 "#study_plan_frequency".

Definition caught (e : exn) : bool :=
  match e with
  | FileNotFoundError | IndexError => true
  | _ => false
  end.

Definition __init__ (W : World) (self : instance) : M unit :=
  Morphemizer.__init__ self;;;
  try_except
    (rows <- lift (frequency_rows W);;
     row0 <- lift (index rows 0);;
     first <- lift (index row0 0);;
     if decide (first ≠ study_plan_header) then
       keys <- lift (comprehension (fun row => index row 0) rows);;
       let frequency_map := dict_of (zip keys (seq 0 (length keys))) in
       _setKnownWords self (dict_keys frequency_map)
     else ret tt)
    caught
    (ret tt).

(** The loop over [enumerate(self._known_words)]. *)
Fixpoint join_known (self : instance) (words : list str) (i : nat) (e_low : str)
  : M str :=
  match words with
  | [] => ret e_low
  | word :: words' =>
    underscored <- lift (getattr self "_known_words_underscored");;
    st <- get;;
    joined <- lift (index (deref st underscored) i);;
    join_known self words' (S i) (str_replace word joined e_low)
  end.

Definition _getMorphemesFromExpr (W : World) (self : instance) (expression : str)
  : M (list Morpheme) :=
  let e_low := str_lower (unicode W) expression in
  known <- lift (getattr self "_known_words");;
  st <- get;;
  e_low <- join_known self (deref st known) 0 e_low;;
  let tokens := SpaceMorphemizer._getMorphemesFromExpr (unicode W) e_low in
  ret (map (fun word => set_base (str_replace [UNDERSCORE] [SPACE] (base word)) word)
           tokens).

Definition getDescription : str := utf8 "Vietnamese".
End VietnameseMorphemizer.

(** ** CjkCharMorphemizer *)

Module CjkCharMorphemizer.
Definition _getMorphemesFromExpr (W : World) (expression : str) : list Morpheme :=
  map (fun character : char =>
         mkMorpheme [character] [character] [character] [character] CJK_CHAR UNKNOWN)
      (filter (fun c => characters W c = true) expression).

Definition getDescription : str := utf8 "CJK Characters".
End CjkCharMorphemizer.

(** ** JiebaMorphemizer *)

Module JiebaMorphemizer.
Definition _getMorphemesFromExpr (W : World) (expression : str) : M (list Morpheme) :=
  let expression := filter (fun c => characters W c = true) expression in
  segments <- lift (posseg_cut W expression);;
  ret (map (fun m : str * str => mkMorpheme m.1 m.1 m.1 m.1 m.2 UNKNOWN) segments).

Definition getDescription : str := utf8 "Chinese".
End JiebaMorphemizer.

(** ** The memoised entry point *)

(** [functools.lru_cache(maxsize=131072)] on the method: one cache for
    the function, keyed by the arguments [(self, expression)], where
    [self] is compared by identity. *)
Definition maxsize : N := 131072.

Abbreviation cache_key := (instance * str)%type (only parsing).
Abbreviation cache_entry := ((instance * str) * list Morpheme)%type (only parsing).

Fixpoint cache_get (key : cache_key) (c : list cache_entry) : option (list Morpheme) :=
  match c with
  | [] => None
  | (k, v) :: c' => if decide (k = key) then Some v else cache_get key c'
  end.

(** A hit makes the entry the most recently used one. *)
Definition cache_hit (key : cache_key) (v : list Morpheme) (c : list cache_entry)
  : list cache_entry :=
  (key, v) :: filter (fun kv => kv.1 ≠ key) c.

(** A miss stores the result; a full cache first drops its least
    recently used entry. *)
Definition cache_put (key : cache_key) (v : list Morpheme) (c : list cache_entry)
  : list cache_entry :=
  (key, v) :: (if N.of_nat (length c) <? maxsize then c else removelast c).

(** Method resolution: [self._getMorphemesFromExpr(expression)]. *)
Definition _getMorphemesFromExpr (W : World) (self : instance) (expression : str)
  : M (list Morpheme) :=
  match inst_class self with
  | Base => ret (Morphemizer._getMorphemesFromExpr expression)
  | Space => ret (SpaceMorphemizer._getMorphemesFromExpr (unicode W) expression)
  | Mecab => MecabMorphemizer._getMorphemesFromExpr W expression
  | Jieba => JiebaMorphemizer._getMorphemesFromExpr W expression
  | CjkChar => ret (CjkCharMorphemizer._getMorphemesFromExpr W expression)
  | Vietnamese => VietnameseMorphemizer._getMorphemesFromExpr W self expression
  end.

(** [self.getDescription()] *)
Definition getDescription (W : World) (self : instance) : M str :=
  match inst_class self with
  | Base => ret Morphemizer.getDescription
  | Space => ret SpaceMorphemizer.getDescription
  | Mecab => MecabMorphemizer.getDescription W
  | Jieba => ret JiebaMorphemizer.getDescription
  | CjkChar => ret CjkCharMorphemizer.getDescription
  | Vietnamese => ret VietnameseMorphemizer.getDescription
  end.

(** [Morphemizer.getMorphemesFromExpr], with its cache. *)
Definition getMorphemesFromExpr (W : World) (self : instance) (expression : str)
  : M (list Morpheme) :=
  st <- get;;
  match cache_get (self, expression) (cache st) with
  | Some morphs =>
    modify (set_cache (cache_hit (self, expression) morphs (cache st)));;;
    ret morphs
  | None =>
    modify count_execution;;;
    morphs <- _getMorphemesFromExpr W self expression;;
    st' <- get;;
    modify (set_cache (cache_put (self, expression) morphs (cache st')));;;
    ret morphs
  end.

(** ** The registry *)

(** [C()]: a new object of class [c], then its [__init__]. *)
Definition new (c : class) : M instance :=
  fun st => (Ok (mkInstance (next_id st) c ∅), set_next_id (S (next_id st)) st).

Definition construct (W : World) (c : class) : M instance :=
  self <- new c;;
  match c with
  | Vietnamese => VietnameseMorphemizer.__init__ W self
  | _ => Morphemizer.__init__ self
  end;;;
  ret self.

Definition getAllMorphemizers (W : World) : M (list instance) :=
  st <- get;;
  match morphemizers st with
  | Some l => ret l
  | None =>
    m1 <- construct W Space;;
    m2 <- construct W Mecab;;
    m3 <- construct W Jieba;;
    m4 <- construct W CjkChar;;
    m5 <- construct W Vietnamese;;
    let l := [m1; m2; m3; m4; m5] in
    modify (set_morphemizers (Some l));;;
    for_each l (fun m =>
      modify (fun st => set_by_name (<[Morphemizer.getName m := m]> (morphemizers_by_name st)) st));;;
    ret l
  end.

Definition getMorphemizerByName (W : World) (name : str) : M (option instance) :=
  getAllMorphemizers W;;;
  st <- get;;
  ret (morphemizers_by_name st !! name).

(** ** Concrete surroundings *)

Module Hanzi.
(** Modelled from the spec: the string [characters] of
    [deps/zhon/hanzi.py], read as a character class: the code-point
    ranges of the CJK ideographs (the unified ideographs, their
    extensions A to D and the compatibility ideographs). *)
Definition characters (c : char) : bool :=
  UCD.between 19968 40959 c || UCD.between 13312 19903 c
  || UCD.between 63744 64255 c || UCD.between 131072 173791 c
  || UCD.between 173824 177983 c || UCD.between 177984 178207 c
  || UCD.between 194560 195103 c.
End Hanzi.

(** A world with the tables above, a MeCab that is not installed and a
    jieba that cuts nothing; the frequency file is left open. *)
Definition world_with (rows : result (list (list str))) : World :=
  {| unicode := UCD.table;
     characters := Hanzi.characters;
     getMorphemesMecab := fun _ => Raise (RuntimeError "mecab");
     getMecabIdentity := Raise (RuntimeError "mecab");
     posseg_cut := fun _ => Ok [];
     frequency_rows := rows |}.

(** ** Predicates of the statements *)

(** Two tables say the same about the character [c]. *)
Definition same_on (U1 U2 : Unicode) (c : char) : Prop :=
  is_space U1 c = is_space U2 c /\ is_decimal U1 c = is_decimal U2 c
  /\ is_alnum U1 c = is_alnum U2 c /\ lower_char U1 c = lower_char U2 c.

(** The lower-case form of a character whose mapping is one character. *)
Definition lower1 (U : Unicode) (c : char) : char :=
  match lower_char U c with
  | [c'] => c'
  | _ => c
  end.

(** Lowering [c] gives one character, which is its own lower case, is
    matched by [\w] and by [[^\s\d]] exactly when [c] is, is an
    underscore only if [c] is, and is no capital sigma. *)
Definition lowers_plainly (U : Unicode) (c : char) : bool :=
  bool_decide (lower_char U c = [lower1 U c])
  && bool_decide (lower_char U (lower1 U c) = [lower1 U c])
  && eqb (is_word U (lower1 U c)) (is_word U c)
  && eqb (token_char U (lower1 U c)) (token_char U c)
  && implb (lower1 U c =? UNDERSCORE) (c =? UNDERSCORE)
  && negb (lower1 U c =? CAPITAL_SIGMA).

(** An instance as [VietnameseMorphemizer()] creates it. *)
Definition vietnamese (id : loc) : instance := mkInstance id Vietnamese ∅.

(** The two vocabulary lists of the class, as a state holds them. *)
Definition known_words (st : State) : list str := deref st known_words_loc.
Definition known_words_underscored (st : State) : list str :=
  deref st known_words_underscored_loc.

(** [f c] is to [U2] what [c] is to [U1], for [\w] and for [[^\s\d]]. *)
Definition agrees (U1 U2 : Unicode) (f : char -> char) (c : char) : Prop :=
  is_word U2 (f c) = is_word U1 c /\ token_char U2 (f c) = token_char U1 c.

(** The entries [_setKnownWords] keeps, in the order it appends them. *)
Definition compounds (words : list str) : list str :=
  filter (fun w => str_contains SPACE w = true) (rev (sort_by_len words)).

(** [word.replace(' ', '_')] *)
Definition underscore (w : str) : str := str_replace [SPACE] [UNDERSCORE] w.

(** The first columns of the rows, as [__init__] collects them. *)
Definition first_columns (rows : list (list str)) : result (list str) :=
  comprehension (fun row => index row 0) rows.

(** The compounds [__init__] appends for the first columns [keys]: the
    keys of the dictionary it builds from them, through
    [_setKnownWords]. *)
Definition vocabulary (keys : list str) : list str :=
  compounds (dict_keys (dict_of (zip keys (seq 0 (length keys))))).

(** Everything but the heap is as before. *)
Definition only_heap_changed (st st' : State) : Prop :=
  next_id st' = next_id st /\ morphemizers st' = morphemizers st
  /\ morphemizers_by_name st' = morphemizers_by_name st
  /\ cache st' = cache st /\ executions st' = executions st.

(** The frequency file of [W] can be read and is a vocabulary: every row
    has a first column, there is a first row, and it is not the header
    of a study plan.  [keys] are the first columns. *)
Definition loads (W : World) (keys : list str) : Prop :=
  exists rows,
    frequency_rows W = Ok rows /\ first_columns rows = Ok keys
    /\ keys <> [] /\ head keys <> Some VietnameseMorphemizer.study_plan_header.

(** The failures of loading that [__init__] takes care of: there is no
    file, the file is empty, or a row has no first column. *)
Definition fails_quietly (W : World) : Prop :=
  frequency_rows W = Raise FileNotFoundError
  \/ frequency_rows W = Raise IndexError
  \/ exists rows, frequency_rows W = Ok rows /\ (rows = [] \/ In [] rows).


(** What the loop over the known words makes of the lowered expression. *)
Definition join_all (known underscored : list str) (e_low : str) : str :=
  fold_left (fun e p => str_replace p.1 p.2 e) (zip known underscored) e_low.

(** The classes of the registry, in its order. *)
Definition registered : list class := [Space; Mecab; Jieba; CjkChar; Vietnamese].

(** What the public functions and the constructors can do to a state. *)
Inductive step (st : State) : State -> Prop :=
| step_getAllMorphemizers (W : World) :
    step st (snd (getAllMorphemizers W st))
| step_getMorphemizerByName (W : World) (name : str) :
    step st (snd (getMorphemizerByName W name st))
| step_getMorphemesFromExpr (W : World) (self : instance) (e : str) :
    step st (snd (getMorphemesFromExpr W self e st))
| step_getDescription (W : World) (self : instance) :
    step st (snd (getDescription W self st))
| step_construct (W : World) (c : class) :
    step st (snd (construct W c st)).

(** The states of a run, from the import of the module on. *)
Inductive reachable : State -> Prop :=
| reachable_initial : reachable initial
| reachable_step (st st' : State) : reachable st -> step st st' -> reachable st'.

(** The invariant of the registry: it is not built and the name map is
    empty, or it holds five distinct instances, one of each class in
    the fixed order, and the name map holds exactly these, each under
    the name of its class. *)
Definition registry_ok (st : State) : Prop :=
  match morphemizers st with
  | None => morphemizers_by_name st = ∅
  | Some l =>
    map inst_class l = registered
    /\ NoDup (map inst_id l)
    /\ (forall m, m ∈ l -> morphemizers_by_name st !! Morphemizer.getName m = Some m)
    /\ (forall name m, morphemizers_by_name st !! name = Some m ->
        m ∈ l /\ Morphemizer.getName m = name)
  end.

(** The name map after [for m in morphemizers: ...]. *)
Definition named (l : list instance) (d : gmap str instance) : gmap str instance :=
  fold_left (fun d m => <[Morphemizer.getName m := m]> d) l d.

(** The five instances a building call creates. *)
Definition built (n : loc) : list instance :=
  [mkInstance n Space ∅; mkInstance (S n) Mecab ∅; mkInstance (S (S n)) Jieba ∅;
   mkInstance (S (S (S n))) CjkChar ∅; mkInstance (S (S (S (S n)))) Vietnamese ∅].

(** [getAllMorphemizers] has a registry to return or can build one: the
    registry is built already, or reading the frequency file raises
    nothing that [__init__] of the Vietnamese morphemizer does not
    catch. *)
Definition builds (W : World) (st : State) : bool :=
  match morphemizers st, frequency_rows W with
  | None, Raise e => VietnameseMorphemizer.caught e
  | _, _ => true
  end.

(** The cache holds a key once at most and no more than [maxsize]
    entries. *)
Definition cache_ok (c : list ((instance * str) * list Morpheme)) : Prop :=
  NoDup (c.*1) /\ N.of_nat (length c) <= maxsize.

(** What [__init__] appends to the known words in the world [W]: the
    compounds of the file, unless it cannot be read, is empty, has a row
    without a first column or begins with the header of a study plan. *)
Definition loaded (W : World) : list str :=
  match frequency_rows W with
  | Ok rows =>
    match first_columns rows with
    | Ok (first :: keys) =>
      if decide (first = VietnameseMorphemizer.study_plan_header) then []
      else vocabulary (first :: keys)
    | _ => []
    end
  | Raise _ => []
  end.

(** [st'] knows the words of [st] and, after them, the words [ws], with
    their underscored forms in the other list. *)
Definition knows_more (st st' : State) (ws : list str) : Prop :=
  known_words st' = known_words st ++ ws
  /\ known_words_underscored st'
     = known_words_underscored st ++ map underscore ws.

(** The two vocabulary lists are parallel, entry for entry a known word
    and its underscored form, and every known word has a space. *)
Definition vocabulary_ok (st : State) : Prop :=
  known_words_underscored st = map underscore (known_words st)
  /\ Forall (fun w => str_contains SPACE w = true) (known_words st).

(** [c] with an underscore read as a space. *)
Definition unmarked (c : char) : char := if c =? UNDERSCORE then SPACE else c.

(** [w in s]: the string [w] occurs in [s]. *)
Fixpoint occurs (w s : str) : bool :=
  startswith w s
  || match s with
     | [] => false
     | _ :: s' => occurs w s'
     end.

(** [w] does not occur in [e], not even when underscores are read as
    spaces in both. *)
Definition absent (w e : str) : bool :=
  negb (occurs (map unmarked w) (map unmarked e)).

(** A cache that is full: 131072 entries, for instances of the base
    class with the identities 0 to 131071 and the empty expression. *)
Definition filler (i : nat) : (instance * str) * list Morpheme :=
  ((mkInstance i Base ∅, []), []).

Definition full_cache : list ((instance * str) * list Morpheme) :=
  map filler (seq 0 (N.to_nat maxsize)).

(** ** The regular expression under a change of characters *)

Section RegexMap.
Variables (U1 U2 : Unicode) (f : char -> char).

Lemma word_at_map (o : option char) :
  from_option (agrees U1 U2 f) True o -> word_at U2 (f <$> o) = word_at U1 o.
Proof. destruct o as [c|]; simpl; [intros [H _]; exact H | reflexivity]. Qed.

Lemma at_boundary_map (p n : option char) :
  from_option (agrees U1 U2 f) True p -> from_option (agrees U1 U2 f) True n ->
  at_boundary U2 (f <$> p) (f <$> n) = at_boundary U1 p n.
Proof.
  intros Hp Hn. unfold at_boundary.
  rewrite (word_at_map p Hp), (word_at_map n Hn). reflexivity.
Qed.

Lemma head_agrees (s : str) :
  Forall (agrees U1 U2 f) s -> from_option (agrees U1 U2 f) True (head s).
Proof. intros H. destruct H; simpl; auto. Qed.

Lemma greedy_end_map (rest : str) :
  forall p, agrees U1 U2 f p -> Forall (agrees U1 U2 f) rest ->
  greedy_end U2 (f p) (map f rest) = greedy_end U1 p rest.
Proof.
  induction rest as [|c rest IH]; intros p Hp Hrest.
  - simpl. rewrite <- (at_boundary_map (Some p) None); simpl; auto.
  - inversion Hrest as [|? ? Hc Hrest']; subst.
    simpl. rewrite <- (at_boundary_map (Some p) (Some c)) by (simpl; auto).
    simpl. destruct Hc as [Hw Ht]. rewrite Ht.
    rewrite IH by (auto; split; auto). reflexivity.
Qed.

Lemma match_at_map (prev : option char) (s : str) :
  from_option (agrees U1 U2 f) True prev -> Forall (agrees U1 U2 f) s ->
  match_at U2 (f <$> prev) (map f s) = match_at U1 prev s.
Proof.
  intros Hp Hs. destruct Hs as [|c s Hc Hs]; simpl; [reflexivity|].
  rewrite <- (at_boundary_map prev (Some c)) by (simpl; auto).
  simpl. rewrite (proj2 Hc), greedy_end_map by auto. reflexivity.
Qed.

Lemma findall_from_map (s : str) :
  forall prev k, from_option (agrees U1 U2 f) True prev -> Forall (agrees U1 U2 f) s ->
  findall_from U2 (f <$> prev) (map f s) k
  = map (map f) (findall_from U1 prev s k).
Proof.
  induction s as [|c s IH]; intros prev k Hp Hs; [reflexivity|].
  pose proof Hs as Hcs. inversion Hs as [|? ? Hc Hs']; subst.
  cbn [findall_from map]. destruct k as [|k].
  - change (f c :: map f s) with (map f (c :: s)).
    rewrite match_at_map by auto.
    destruct (match_at U1 prev (c :: s)) as [n|].
    + cbn [map]. f_equal.
      * apply (firstn_map f n (c :: s)).
      * apply (IH (Some c)); simpl; auto.
    + apply (IH (Some c)); simpl; auto.
  - apply (IH (Some c)); simpl; auto.
Qed.

Lemma findall_words_map (s : str) :
  Forall (agrees U1 U2 f) s ->
  findall_words U2 (map f s) = map (map f) (findall_words U1 s).
Proof. intros H. apply (findall_from_map s None 0%nat); simpl; auto. Qed.
End RegexMap.

(** Every match consists of characters of the subject. *)
Lemma findall_from_chars (U : Unicode) (P : char -> Prop) (s : str) :
  forall prev k, Forall P s -> Forall (Forall P) (findall_from U prev s k).
Proof.
  induction s as [|c s IH]; intros prev k Hs; [constructor|].
  inversion Hs; subst. cbn [findall_from]. destruct k as [|k]; auto.
  destruct (match_at U prev (c :: s)); auto.
  constructor; auto. apply Forall_take. assumption.
Qed.

Lemma str_contains_false (c : char) (s : str) :
  str_contains c s = false <-> Forall (fun x => x <> c) s.
Proof.
  unfold str_contains. induction s as [|x s IH]; cbn [existsb].
  - split; [constructor|reflexivity].
  - rewrite orb_false_iff, IH, Forall_cons, N.eqb_neq.
    split; intros [H1 H2]; split; auto.
Qed.

(** Without a capital sigma, lowering goes character by character. *)
Lemma lower_from_plain (U : Unicode) (s : str) :
  forall before, str_contains CAPITAL_SIGMA s = false ->
  lower_from U before s = flat_map (lower_char U) s.
Proof.
  induction s as [|c s IH]; intros before; [reflexivity|].
  unfold str_contains. cbn [existsb lower_from flat_map]. intros H.
  apply orb_false_iff in H. destruct H as [Hc Hs].
  rewrite N.eqb_sym, Hc, (IH _ Hs). reflexivity.
Qed.

Lemma str_lower_plain (U : Unicode) (s : str) :
  str_contains CAPITAL_SIGMA s = false -> str_lower U s = flat_map (lower_char U) s.
Proof. apply lower_from_plain. Qed.

Lemma str_lower_ext (U1 U2 : Unicode) (s : str) :
  str_contains CAPITAL_SIGMA s = false ->
  Forall (same_on U1 U2) s -> str_lower U1 s = str_lower U2 s.
Proof.
  intros Hs H. rewrite !str_lower_plain by exact Hs. clear Hs.
  induction H as [|c s Hc Hs IH]; [reflexivity|].
  simpl. rewrite IH.
  destruct Hc as (_ & _ & _ & ->). reflexivity.
Qed.

Lemma same_on_agrees (U1 U2 : Unicode) (c : char) :
  same_on U1 U2 c -> agrees U2 U1 (fun c => c) c.
Proof.
  intros (Hs & Hd & Ha & _). unfold agrees, is_word, token_char.
  rewrite Hs, Hd, Ha. split; reflexivity.
Qed.

(** The space morphemizer only looks at the characters of its input. *)
Lemma space_ext (U1 U2 : Unicode) (s : str) :
  str_contains CAPITAL_SIGMA s = false ->
  Forall (same_on U1 U2) s ->
  SpaceMorphemizer._getMorphemesFromExpr U1 s
  = SpaceMorphemizer._getMorphemesFromExpr U2 s.
Proof.
  intros Hsigma Hs. unfold SpaceMorphemizer._getMorphemesFromExpr. cbv zeta.
  assert (Hfind : findall_words U1 s = findall_words U2 s).
  { pose proof (findall_words_map U2 U1 (fun c => c) s) as H.
    rewrite !map_id in H.
    rewrite H.
    - clear. induction (findall_words U2 s) as [|t l IH]; [reflexivity|].
      simpl. rewrite map_id. f_equal. exact IH.
    - eapply Forall_impl; [exact Hs|]. intros c Hc. apply same_on_agrees, Hc. }
  rewrite Hfind. f_equal.
  apply str_contains_false in Hsigma.
  assert (Hboth : Forall (fun c => same_on U1 U2 c /\ c <> CAPITAL_SIGMA) s)
    by (apply Forall_and; split; assumption).
  pose proof (findall_from_chars U2 _ s None 0%nat Hboth) as Hall.
  fold (findall_words U2 s) in Hall. clear Hfind.
  induction Hall as [|t l Ht Hl IH]; [reflexivity|].
  apply Forall_and in Ht. destruct Ht as [Ht Hsig].
  apply str_contains_false in Hsig.
  simpl. rewrite IH, (str_lower_ext _ _ _ Hsig Ht). reflexivity.
Qed.

(** ** The model on small inputs *)

Example utf8_viet : utf8 "bánh mì" = [98; 225; 110; 104; 32; 109; 236].
Proof. reflexivity. Qed.

Example utf8_cjk : utf8 "abc中文!" = [97; 98; 99; 20013; 25991; 33].
Proof. reflexivity. Qed.

Example replace_overlap :
  str_replace (utf8 "aa") (utf8 "b") (utf8 "aaaxaa") = utf8 "baxb".
Proof. reflexivity. Qed.

Example space_three_words :
  map base (SpaceMorphemizer._getMorphemesFromExpr UCD.table (utf8 "The Quick fox2 jumps"))
  = [utf8 "the"; utf8 "quick"; utf8 "jumps"].
Proof. vm_compute. reflexivity. Qed.

Example space_hyphen :
  map base (SpaceMorphemizer._getMorphemesFromExpr UCD.table (utf8 "fox2-bar a_b x.y."))
  = [utf8 "-bar"; utf8 "a_b"; utf8 "x.y"].
Proof. vm_compute. reflexivity. Qed.

Example replace_empty_old :
  str_replace [] (utf8 "-") (utf8 "ab") = utf8 "-a-b-".
Proof. reflexivity. Qed.

Example lower_vietnamese :
  str_lower UCD.table (utf8 "Tôi ĂN BÁNH MÌ") = utf8 "tôi ăn bánh mì".
Proof. vm_compute. reflexivity. Qed.

Example lower_sigma :
  str_lower UCD.table (utf8 "ΟΔΟΣ ΣΟΦΟΣ. A.Σ Σ ⒶΣ") = utf8 "οδος σοφος. a.ς σ ⓐς".
Proof. vm_compute. reflexivity. Qed.

Example sort_is_stable :
  rev (sort_by_len [utf8 "ab"; utf8 "c d"; utf8 "e f"; utf8 "ghij"])
  = [utf8 "ghij"; utf8 "e f"; utf8 "c d"; utf8 "ab"].
Proof. reflexivity. Qed.

Example dict_keeps_first_position :
  dict_keys (dict_of (zip [utf8 "a"; utf8 "b"; utf8 "a"] (seq 0 3)))
  = [utf8 "a"; utf8 "b"].
Proof. reflexivity. Qed.

(** ** Properties *)

(** *** The space morphemizer *)

(** C5.  Whatever the Unicode tables say elsewhere, if they read the
    characters of ["The Quick fox2 jumps"] as the Unicode character
    database does, the space morphemizer returns three morphemes, with
    bases ["the"], ["quick"], ["jumps"] in this order and every text
    field equal to the base: the pattern matches ["The"], ["Quick"] and
    ["jumps"], and nothing of ["fox2"], neither the token nor a part of
    it. *)
Theorem space_skips_token_with_digit (U : Unicode) :
  Forall (same_on U UCD.table) (utf8 "The Quick fox2 jumps") ->
  let morphs := SpaceMorphemizer._getMorphemesFromExpr U (utf8 "The Quick fox2 jumps") in
  map base morphs = [utf8 "the"; utf8 "quick"; utf8 "jumps"]
  /\ morphs = map (fun w => mkMorpheme w w w w UNKNOWN UNKNOWN)
                  [utf8 "the"; utf8 "quick"; utf8 "jumps"]
  /\ findall_words U (utf8 "The Quick fox2 jumps")
     = [utf8 "The"; utf8 "Quick"; utf8 "jumps"]
  /\ (forall m, In m morphs -> base m <> utf8 "fox" /\ base m <> utf8 "fox2").
Proof.
  intros HU morphs. subst morphs.
  assert (Hfind : findall_words U (utf8 "The Quick fox2 jumps")
                  = findall_words UCD.table (utf8 "The Quick fox2 jumps")).
  { pose proof (findall_words_map UCD.table U (fun c => c)
                  (utf8 "The Quick fox2 jumps")) as H.
    rewrite map_id in H. rewrite H.
    - generalize (findall_words UCD.table (utf8 "The Quick fox2 jumps")).
      intros l. induction l as [|t l IH]; [reflexivity|].
      simpl. rewrite map_id, IH. reflexivity.
    - eapply Forall_impl; [exact HU|]. intros c Hc. apply same_on_agrees, Hc. }
  rewrite (space_ext U UCD.table (utf8 "The Quick fox2 jumps") eq_refl HU), Hfind.
  split; [vm_compute; reflexivity|].
  split; [vm_compute; reflexivity|].
  split; [vm_compute; reflexivity|].
  intros m Hm. vm_compute in Hm.
  repeat (destruct Hm as [<-|Hm]; [split; vm_compute; discriminate|]).
  destruct Hm.
Qed.

Lemma space_skips_token_with_digit_witness :
  map base (SpaceMorphemizer._getMorphemesFromExpr UCD.table
              (utf8 "The Quick fox2 jumps"))
  = [utf8 "the"; utf8 "quick"; utf8 "jumps"].
Proof.
  apply (space_skips_token_with_digit UCD.table).
  apply Forall_forall. intros c _. repeat split.
Defined.

(** *** The CJK character morphemizer *)

(** C6.  If the character class of zhon contains the two ideographs of
    ["abc中文!"] and none of its other characters, the CJK character
    morphemizer returns exactly two morphemes, for ["中"] and then
    ["文"], each with its four text fields equal to the character, the
    tag [CJK_CHAR] and the secondary tag [UNKNOWN]. *)
Theorem cjk_keeps_ideographs_only (W : World) :
  Forall (fun c => characters W c = true) (utf8 "中文") ->
  Forall (fun c => characters W c = false) (utf8 "abc!") ->
  CjkCharMorphemizer._getMorphemesFromExpr W (utf8 "abc中文!")
  = [ mkMorpheme (utf8 "中") (utf8 "中") (utf8 "中") (utf8 "中") CJK_CHAR UNKNOWN;
      mkMorpheme (utf8 "文") (utf8 "文") (utf8 "文") (utf8 "文") CJK_CHAR UNKNOWN ].
Proof.
  intros Hin Hout.
  change (utf8 "中文") with [20013; 25991] in Hin.
  change (utf8 "abc!") with [97; 98; 99; 33] in Hout.
  change (utf8 "abc中文!") with [97; 98; 99; 20013; 25991; 33].
  repeat match goal with
         | H : Forall _ (_ :: _) |- _ => apply Forall_cons_1 in H; destruct H
         end.
  unfold CjkCharMorphemizer._getMorphemesFromExpr.
  repeat (rewrite filter_cons_False by congruence).
  repeat (rewrite filter_cons_True by assumption).
  repeat (rewrite filter_cons_False by congruence).
  reflexivity.
Qed.

Lemma cjk_keeps_ideographs_only_witness :
  map base (CjkCharMorphemizer._getMorphemesFromExpr (world_with (Raise FileNotFoundError))
              (utf8 "abc中文!"))
  = [utf8 "中"; utf8 "文"].
Proof.
  rewrite (cjk_keeps_ideographs_only (world_with (Raise FileNotFoundError))).
  - reflexivity.
  - repeat constructor.
  - repeat constructor.
Defined.

(** *** The description of the Japanese morphemizer *)

(** C9.  [getDescription] of a MeCab morphemizer always returns, in
    every state and leaving it as it was: with the identity MeCab
    reports after ["Japanese "], and with ["UNAVAILABLE"] in its place
    when asking for the identity raises, whatever the exception. *)
Theorem mecab_description_never_raises (W : World) (id : loc) (d : gmap string loc)
    (st : State) :
  getDescription W (mkInstance id Mecab d) st
  = (Ok (utf8 "Japanese " ++ match getMecabIdentity W with
                             | Ok identity => identity
                             | Raise _ => utf8 "UNAVAILABLE"
                             end), st).
Proof.
  unfold getDescription, MecabMorphemizer.getDescription, bind, try_except, lift, ret.
  simpl. destruct (getMecabIdentity W); reflexivity.
Qed.

(** *** The cache *)

Lemma cache_get_hit (key : instance * str) (v : list Morpheme)
    (c : list ((instance * str) * list Morpheme)) :
  cache_get key (cache_hit key v c) = Some v.
Proof. unfold cache_hit. simpl. rewrite decide_True by reflexivity. reflexivity. Qed.

Lemma cache_get_put (key : instance * str) (v : list Morpheme)
    (c : list ((instance * str) * list Morpheme)) :
  cache_get key (cache_put key v c) = Some v.
Proof. unfold cache_put. simpl. rewrite decide_True by reflexivity. reflexivity. Qed.

(** Segmenting reads the state and leaves it as it is. *)
Lemma join_known_pure (self : instance) (words : list str) :
  forall i e_low st, snd (VietnameseMorphemizer.join_known self words i e_low st) = st.
Proof.
  induction words as [|w words IH]; intros i e_low st; [reflexivity|].
  cbn [VietnameseMorphemizer.join_known]. unfold bind, lift, get.
  destruct (getattr self "_known_words_underscored"); [|reflexivity].
  destruct (index (deref st a) i); [|reflexivity].
  apply IH.
Qed.

Lemma segment_pure (W : World) (self : instance) (e : str) (st : State) :
  snd (_getMorphemesFromExpr W self e st) = st.
Proof.
  unfold _getMorphemesFromExpr. destruct (inst_class self); try reflexivity.
  - unfold JiebaMorphemizer._getMorphemesFromExpr, bind, lift, ret.
    destruct (posseg_cut W _); reflexivity.
  - unfold VietnameseMorphemizer._getMorphemesFromExpr, bind, lift, get, ret.
    destruct (getattr self "_known_words"); [|reflexivity].
    pose proof (join_known_pure self (deref st a) 0%nat
                  (str_lower (unicode W) e) st) as H.
    destruct (VietnameseMorphemizer.join_known _ _ _ _ st) as [[x|x] st'];
      simpl in H; subst; reflexivity.
Qed.

Lemma getMorphemesFromExpr_hit (W : World) (self : instance) (e : str)
    (st : State) (v : list Morpheme) :
  cache_get (self, e) (cache st) = Some v ->
  getMorphemesFromExpr W self e st
  = (Ok v, set_cache (cache_hit (self, e) v (cache st)) st).
Proof.
  intros H. unfold getMorphemesFromExpr, bind, get, modify, ret.
  rewrite H. reflexivity.
Qed.

Lemma getMorphemesFromExpr_miss (W : World) (self : instance) (e : str) (st : State) :
  cache_get (self, e) (cache st) = None ->
  getMorphemesFromExpr W self e st
  = match fst (_getMorphemesFromExpr W self e (count_execution st)) with
    | Ok v => (Ok v, set_cache (cache_put (self, e) v (cache st)) (count_execution st))
    | Raise x => (Raise x, count_execution st)
    end.
Proof.
  intros H. unfold getMorphemesFromExpr, bind, get, modify, ret.
  rewrite H.
  pose proof (segment_pure W self e (count_execution st)) as Hpure.
  destruct (_getMorphemesFromExpr W self e (count_execution st)) as [[v|x] st'];
    simpl in Hpure; subst st'; reflexivity.
Qed.

(** C7.  In every state, for every instance and expression: when a call
    of [getMorphemesFromExpr] returns a sequence, the next call with
    the same instance and expression returns that same sequence, and
    does so from the cache, without entering [_getMorphemesFromExpr]
    (whatever the analysers outside would answer by then); the first
    call entered it once if the cache did not hold the entry, and not
    at all if it did. *)
Theorem second_call_is_cache_hit (W W' : World) (self : instance) (e : str)
    (st st1 : State) (morphs : list Morpheme) :
  getMorphemesFromExpr W self e st = (Ok morphs, st1) ->
  exists st2,
    getMorphemesFromExpr W' self e st1 = (Ok morphs, st2)
    /\ executions st2 = executions st1
    /\ executions st1
       = match cache_get (self, e) (cache st) with
         | Some _ => executions st
         | None => S (executions st)
         end.
Proof.
  intros H.
  destruct (cache_get (self, e) (cache st)) as [v|] eqn:Hget.
  - rewrite (getMorphemesFromExpr_hit _ _ _ _ _ Hget) in H.
    inversion H; subst; clear H.
    eexists. split; [apply getMorphemesFromExpr_hit, cache_get_hit|].
    split; reflexivity.
  - rewrite (getMorphemesFromExpr_miss _ _ _ _ Hget) in H.
    destruct (fst (_getMorphemesFromExpr W self e (count_execution st)));
      [|discriminate].
    inversion H; subst; clear H.
    eexists. split; [apply getMorphemesFromExpr_hit, cache_get_put|].
    split; reflexivity.
Qed.

Lemma second_call_is_cache_hit_witness :
  let W := world_with (Raise FileNotFoundError) in
  let self := mkInstance 2%nat Space ∅ in
  let e := utf8 "The Quick fox2 jumps" in
  exists st2,
    getMorphemesFromExpr W self e (snd (getMorphemesFromExpr W self e initial))
    = (Ok (SpaceMorphemizer._getMorphemesFromExpr UCD.table e), st2)
    /\ executions st2 = 1%nat.
Proof.
  intros W self e.
  destruct (second_call_is_cache_hit W W self e initial
              (snd (getMorphemesFromExpr W self e initial))
              (SpaceMorphemizer._getMorphemesFromExpr UCD.table e))
    as (st2 & H1 & H2 & H3).
  - vm_compute. reflexivity.
  - exists st2. split; [exact H1|]. rewrite H2, H3. reflexivity.
Defined.

(** *** The vocabulary of the Vietnamese morphemizer *)

Lemma only_heap_changed_refl (st : State) : only_heap_changed st st.
Proof. repeat split. Qed.

Lemma only_heap_changed_trans (a b c : State) :
  only_heap_changed a b -> only_heap_changed b c -> only_heap_changed a c.
Proof.
  unfold only_heap_changed. intros (?&?&?&?&?) (?&?&?&?&?).
  repeat split; congruence.
Qed.

Lemma getattr_known (id : loc) :
  getattr (vietnamese id) "_known_words" = Ok known_words_loc.
Proof. reflexivity. Qed.

Lemma getattr_underscored (id : loc) :
  getattr (vietnamese id) "_known_words_underscored" = Ok known_words_underscored_loc.
Proof. reflexivity. Qed.

(** Appending a word and its underscored form to the two lists. *)
Lemma append_pair (st : State) (w u : str) :
  let st' := snd ((list_append known_words_loc w;;;
                   list_append known_words_underscored_loc u) st) in
  known_words st' = known_words st ++ [w]
  /\ known_words_underscored st' = known_words_underscored st ++ [u]
  /\ only_heap_changed st st'.
Proof.
  unfold bind, list_append, modify, known_words, known_words_underscored, deref.
  simpl. split; [|split; [|repeat split]].
  - rewrite lookup_insert_ne by discriminate. rewrite lookup_insert_eq. reflexivity.
  - rewrite lookup_insert_eq. simpl.
    rewrite lookup_insert_ne by discriminate. reflexivity.
Qed.

Lemma setKnownWords_loop (id : loc) (ws : list str) :
  forall st, exists st',
    for_each ws (fun word =>
      if str_contains SPACE word then
        known <- lift (getattr (vietnamese id) "_known_words");;
        list_append known word;;;
        underscored <- lift (getattr (vietnamese id) "_known_words_underscored");;
        list_append underscored (str_replace [SPACE] [UNDERSCORE] word)
      else ret tt) st = (Ok tt, st')
    /\ known_words st'
       = known_words st ++ filter (fun w => str_contains SPACE w = true) ws
    /\ known_words_underscored st'
       = known_words_underscored st
         ++ map underscore (filter (fun w => str_contains SPACE w = true) ws)
    /\ only_heap_changed st st'.
Proof.
  induction ws as [|w ws IH]; intros st.
  - exists st. simpl. rewrite !app_nil_r.
    repeat split; reflexivity.
  - match type of IH with
    | context [for_each ws ?b] => set (body := b) in *
    end.
    cbn [for_each]. unfold bind at 1.
    destruct (str_contains SPACE w) eqn:Hw.
    + pose proof (append_pair st w (underscore w)) as Hstep.
      cbv zeta in Hstep.
      set (st1 := snd ((list_append known_words_loc w;;;
                        list_append known_words_underscored_loc (underscore w)) st))
        in *.
      assert (Hbody : body w st = (Ok tt, st1)).
      { unfold body. rewrite Hw. reflexivity. }
      rewrite Hbody.
      destruct Hstep as (Hk & Hu & Hf).
      destruct (IH st1) as (st' & Hrun & Hk' & Hu' & Hf').
      exists st'. split; [exact Hrun|].
      rewrite (filter_cons_True (fun w => str_contains SPACE w = true) w ws Hw).
      split; [|split].
      * rewrite Hk', Hk, <- app_assoc. reflexivity.
      * rewrite Hu', Hu, <- app_assoc. reflexivity.
      * exact (only_heap_changed_trans _ _ _ Hf Hf').
    + assert (Hbody : body w st = (Ok tt, st)).
      { unfold body. rewrite Hw. reflexivity. }
      rewrite Hbody.
      destruct (IH st) as (st' & Hrun & Hk' & Hu' & Hf').
      exists st'. split; [exact Hrun|].
      rewrite (filter_cons_False (fun w => str_contains SPACE w = true) w ws)
        by (rewrite Hw; discriminate).
      auto.
Qed.

Lemma setKnownWords_spec (id : loc) (words : list str) (st : State) :
  exists st',
    VietnameseMorphemizer._setKnownWords (vietnamese id) words st = (Ok tt, st')
    /\ known_words st' = known_words st ++ compounds words
    /\ known_words_underscored st'
       = known_words_underscored st ++ map underscore (compounds words)
    /\ only_heap_changed st st'.
Proof. apply setKnownWords_loop. Qed.

Lemma comprehension_empty_row (rows : list (list str)) :
  In [] rows -> comprehension (fun row : list str => index row 0) rows = Raise IndexError.
Proof.
  induction rows as [|r rows IH]; intros Hin; [destruct Hin|].
  destruct Hin as [->|Hin]; [reflexivity|].
  simpl. destruct (index r 0) as [k|e] eqn:Hr.
  - rewrite (IH Hin). reflexivity.
  - destruct r; [|discriminate]. inversion Hr. reflexivity.
Qed.

Lemma init_fails_quietly (W : World) (self : instance) (st : State) :
  fails_quietly W -> VietnameseMorphemizer.__init__ W self st = (Ok tt, st).
Proof.
  unfold VietnameseMorphemizer.__init__, Morphemizer.__init__, try_except, bind, lift, ret.
  intros [H|[H|(rows & H & Hrows)]]; rewrite H; try reflexivity.
  destruct Hrows as [->|Hin]; [reflexivity|].
  destruct rows as [|r0 rows]; [destruct Hin|].
  destruct r0 as [|first r0]; [reflexivity|].
  change (index ((first :: r0) :: rows) 0) with (Ok (A := list str) (first :: r0)).
  cbv beta iota.
  change (index (first :: r0) 0) with (Ok (A := str) first).
  cbv beta iota.
  destruct (decide (first ≠ VietnameseMorphemizer.study_plan_header)); [|reflexivity].
  rewrite (comprehension_empty_row _ Hin). reflexivity.
Qed.

Lemma init_raises (W : World) (self : instance) (st : State) (e : exn) :
  frequency_rows W = Raise e -> VietnameseMorphemizer.caught e = false ->
  VietnameseMorphemizer.__init__ W self st = (Raise e, st).
Proof.
  intros H Hc.
  unfold VietnameseMorphemizer.__init__, Morphemizer.__init__, try_except, bind, lift, ret.
  rewrite H, Hc. reflexivity.
Qed.

Lemma init_loads (W : World) (id : loc) (keys : list str) (st : State) :
  loads W keys ->
  exists st',
    VietnameseMorphemizer.__init__ W (vietnamese id) st = (Ok tt, st')
    /\ known_words st' = known_words st ++ vocabulary keys
    /\ known_words_underscored st'
       = known_words_underscored st ++ map underscore (vocabulary keys)
    /\ only_heap_changed st st'.
Proof.
  intros (rows & Hrows & Hkeys & Hne & Hhead).
  destruct (setKnownWords_spec id
              (dict_keys (dict_of (zip keys (seq 0 (length keys))))) st)
    as (st' & Hset & Hk & Hu & Hf).
  exists st'. split; [|auto].
  unfold VietnameseMorphemizer.__init__, Morphemizer.__init__, try_except, bind, lift, ret.
  rewrite Hrows.
  destruct rows as [|r0 rows]; [inversion Hkeys; subst; contradiction|].
  unfold first_columns in Hkeys. pose proof Hkeys as Hkeys'.
  cbn [comprehension] in Hkeys.
  destruct r0 as [|first r0]; [discriminate|].
  change (index (first :: r0) 0) with (Ok (A := str) first) in Hkeys.
  cbv beta iota in Hkeys.
  destruct (comprehension _ rows) as [ks|] eqn:Hks; [|discriminate].
  inversion Hkeys; subst keys; clear Hkeys.
  change (index ((first :: r0) :: rows) 0) with (Ok (A := list str) (first :: r0)).
  cbv beta iota.
  change (index (first :: r0) 0) with (Ok (A := str) first).
  cbv beta iota.
  rewrite decide_True by (intros ->; apply Hhead; reflexivity).
  rewrite Hkeys'. rewrite Hset. reflexivity.
Qed.

(** Construction, when [__init__] returns. *)
Lemma construct_vietnamese (W : World) (st st' : State) :
  VietnameseMorphemizer.__init__ W (vietnamese (next_id st))
    (set_next_id (S (next_id st)) st) = (Ok tt, st') ->
  construct W Vietnamese st = (Ok (vietnamese (next_id st)), st').
Proof.
  intros H. unfold construct, bind, new, ret.
  change (mkInstance (next_id st) Vietnamese ∅) with (vietnamese (next_id st)).
  rewrite H. reflexivity.
Qed.

(** *** Loading the vocabulary *)

(** C2, as the code has it.  When the frequency file does not exist,
    is empty or has a row without a first column, [__init__] of the
    Vietnamese morphemizer returns without raising and leaves the state,
    the two vocabulary lists of the class included, as it found it (so
    the vocabulary is empty unless an earlier construction filled it).
    An exception of loading other than [FileNotFoundError] and
    [IndexError], such as [PermissionError] or [UnicodeDecodeError] for
    a file that cannot be read, is raised to the caller. *)
Theorem vocabulary_failure_handling (W : World) (self : instance) (st : State) :
  (fails_quietly W -> VietnameseMorphemizer.__init__ W self st = (Ok tt, st))
  /\ (forall e, frequency_rows W = Raise e -> VietnameseMorphemizer.caught e = false ->
      VietnameseMorphemizer.__init__ W self st = (Raise e, st)).
Proof.
  split; [apply init_fails_quietly|]. intros e. apply init_raises.
Qed.

Lemma vocabulary_failure_handling_witness :
  construct (world_with (Ok [[utf8 "bánh mì"]; []])) Vietnamese initial
  = (Ok (vietnamese 2%nat), set_next_id 3%nat initial)
  /\ known_words (set_next_id 3%nat initial) = [].
Proof.
  split; [|reflexivity].
  apply construct_vietnamese.
  apply (vocabulary_failure_handling (world_with (Ok [[utf8 "bánh mì"]; []]))).
  right. right. eexists. split; [reflexivity|]. right. simpl. auto.
Defined.

(** An unreadable frequency file makes the construction raise. *)
Lemma unreadable_vocabulary_raises :
  construct (world_with (Raise PermissionError)) Vietnamese initial
  = (Raise PermissionError, set_next_id 3%nat initial)
  /\ fst (getAllMorphemizers (world_with (Raise UnicodeDecodeError)) initial)
     = Raise UnicodeDecodeError.
Proof. split; vm_compute; reflexivity. Qed.

(** *** Without vocabulary *)

Lemma replace_from_absent (s : str) :
  str_contains UNDERSCORE s = false -> replace_from [UNDERSCORE] [SPACE] s 0 = s.
Proof.
  induction s as [|c s IH]; [reflexivity|].
  unfold str_contains. cbn [existsb replace_from startswith].
  intros H. apply orb_false_iff in H. destruct H as [Hc Hs].
  rewrite Hc. cbn [andb]. rewrite (IH Hs). reflexivity.
Qed.

Lemma str_replace_absent (s : str) :
  str_contains UNDERSCORE s = false -> str_replace [UNDERSCORE] [SPACE] s = s.
Proof. apply replace_from_absent. Qed.







(** Lowering first or last makes a difference where the lower case of
    a character is longer than the character: for the dotted capital I
    the space morphemizer returns ["i"] with a combining dot above, the
    Vietnamese morphemizer, which matches in the lowered expression,
    the ["i"] alone. *)
Example lowering_before_matching :
  let W := world_with (Raise FileNotFoundError) in
  fst (_getMorphemesFromExpr W (vietnamese 2%nat) [304] (set_next_id 3%nat initial))
  = Ok [mkMorpheme [105] [105] [105] [105] UNKNOWN UNKNOWN]
  /\ SpaceMorphemizer._getMorphemesFromExpr (unicode W) [304]
     = [mkMorpheme [105; 775] [105; 775] [105; 775] [105; 775] UNKNOWN UNKNOWN].
Proof. split; vm_compute; reflexivity. Qed.

(** It also makes a difference for a capital sigma, which [str.lower]
    lowers by what stands around it.  In ["ΑΣⒶ"] the pattern matches
    ["ΑΣ"]: the space morphemizer lowers this match, in which the sigma
    is final, the Vietnamese morphemizer the whole expression, in which
    a cased character follows the sigma.  Every character of the
    expression lowers plainly. *)
Example sigma_before_matching :
  let W := world_with (Raise FileNotFoundError) in
  forallb (lowers_plainly (unicode W)) (utf8 "ΑΣⒶ") = true
  /\ str_lower (unicode W) (utf8 "ΑΣⒶ") = utf8 "ασⓐ"
  /\ fst (_getMorphemesFromExpr W (vietnamese 2%nat) (utf8 "ΑΣⒶ")
            (set_next_id 3%nat initial))
     = Ok [mkMorpheme (utf8 "ασ") (utf8 "ασ") (utf8 "ασ") (utf8 "ασ") UNKNOWN UNKNOWN]
  /\ SpaceMorphemizer._getMorphemesFromExpr (unicode W) (utf8 "ΑΣⒶ")
     = [mkMorpheme (utf8 "ας") (utf8 "ας") (utf8 "ας") (utf8 "ας") UNKNOWN UNKNOWN].
Proof. repeat split; vm_compute; reflexivity. Qed.




(** *** The joining marker *)

Lemma join_known_spec (id : loc) (st : State) (words : list str) :
  forall i e_low,
    (length words + i <= length (known_words_underscored st))%nat ->
    VietnameseMorphemizer.join_known (vietnamese id) words i e_low st
    = (Ok (join_all words (drop i (known_words_underscored st)) e_low), st).
Proof.
  induction words as [|w words IH]; intros i e_low Hlen; [reflexivity|].
  cbn [VietnameseMorphemizer.join_known]. unfold bind at 1. unfold lift at 1.
  rewrite getattr_underscored. unfold bind at 1. unfold get at 1.
  unfold bind at 1. unfold lift at 1.
  fold (known_words_underscored st). unfold index.
  cbn [length] in Hlen.
  destruct (known_words_underscored st !! i) as [u|] eqn:Hu.
  - rewrite IH by lia. rewrite (drop_S _ _ _ Hu). reflexivity.
  - apply lookup_ge_None in Hu. lia.
Qed.

Lemma vietnamese_segmentation (W : World) (id : loc) (e : str) (st : State) :
  (length (known_words st) <= length (known_words_underscored st))%nat ->
  VietnameseMorphemizer._getMorphemesFromExpr W (vietnamese id) e st
  = (Ok (map (fun word => set_base (str_replace [UNDERSCORE] [SPACE] (base word)) word)
             (SpaceMorphemizer._getMorphemesFromExpr (unicode W)
                (join_all (known_words st) (known_words_underscored st)
                          (str_lower (unicode W) e)))), st).
Proof.
  intros Hlen.
  unfold VietnameseMorphemizer._getMorphemesFromExpr, bind, lift, get, ret.
  rewrite getattr_known. fold (known_words st).
  rewrite join_known_spec by lia. reflexivity.
Qed.

Lemma replace_from_no_underscore (s : str) :
  str_contains UNDERSCORE (replace_from [UNDERSCORE] [SPACE] s 0) = false.
Proof.
  induction s as [|c s IH]; [reflexivity|].
  cbn [replace_from startswith]. destruct (UNDERSCORE =? c) eqn:Hc; cbn [andb].
  - exact IH.
  - unfold str_contains in *. cbn [existsb]. rewrite Hc, IH. reflexivity.
Qed.

(** C4.  Whenever [_getMorphemesFromExpr] of a Vietnamese morphemizer
    returns, its morphemes are, one for one and in order, those the
    space morphemizer produces for the expression with the compounds
    joined: the base is the base of that morpheme with every underscore
    replaced by a space (and so contains none), while [norm],
    [inflected], [read], [pos] and [subPos] are those of that morpheme,
    its token with the underscores still in it. *)
Theorem marker_replaced_in_base_only (W : World) (id : loc) (e : str)
    (st st' : State) (tokens : list Morpheme) :
  VietnameseMorphemizer._getMorphemesFromExpr W (vietnamese id) e st = (Ok tokens, st') ->
  exists e_low,
    fst (VietnameseMorphemizer.join_known (vietnamese id) (known_words st) 0
           (str_lower (unicode W) e) st) = Ok e_low
    /\ Forall2
         (fun m t =>
            base m = str_replace [UNDERSCORE] [SPACE] (base t)
            /\ str_contains UNDERSCORE (base m) = false
            /\ norm m = norm t /\ inflected m = inflected t /\ read m = read t
            /\ pos m = pos t /\ subPos m = subPos t
            /\ norm t = base t /\ inflected t = base t /\ read t = base t)
         tokens (SpaceMorphemizer._getMorphemesFromExpr (unicode W) e_low).
Proof.
  unfold VietnameseMorphemizer._getMorphemesFromExpr, bind, lift, get, ret.
  rewrite getattr_known. fold (known_words st).
  destruct (VietnameseMorphemizer.join_known _ _ _ _ st) as [[e_low|x] st1];
    [|discriminate].
  intros H. inversion H; subst; clear H.
  exists e_low. split; [reflexivity|].
  unfold SpaceMorphemizer._getMorphemesFromExpr. cbv zeta.
  induction (map (str_lower (unicode W)) (findall_words (unicode W) e_low))
    as [|w l IH]; [constructor|].
  cbn [map]. constructor; [|exact IH].
  cbn [set_base base norm inflected read pos subPos].
  repeat split. apply replace_from_no_underscore.
Qed.

Lemma marker_replaced_in_base_only_witness :
  let W := world_with (Ok [[utf8 "bánh mì"]; [utf8 "bánh"]]) in
  exists v st m,
    construct W Vietnamese initial = (Ok v, st)
    /\ fst (VietnameseMorphemizer._getMorphemesFromExpr W v (utf8 "tôi ăn bánh mì") st)
       = Ok [mkMorpheme (utf8 "tôi") (utf8 "tôi") (utf8 "tôi") (utf8 "tôi") UNKNOWN UNKNOWN;
             mkMorpheme (utf8 "ăn") (utf8 "ăn") (utf8 "ăn") (utf8 "ăn") UNKNOWN UNKNOWN;
             m]
    /\ base m = utf8 "bánh mì" /\ norm m = utf8 "bánh_mì"
    /\ inflected m = utf8 "bánh_mì" /\ read m = utf8 "bánh_mì".
Proof.
  intros W.
  pose (st := snd (construct W Vietnamese initial)).
  pose (r := VietnameseMorphemizer._getMorphemesFromExpr W (vietnamese 2%nat)
               (utf8 "tôi ăn bánh mì") st).
  destruct (marker_replaced_in_base_only W 2%nat (utf8 "tôi ăn bánh mì") st (snd r)
              [mkMorpheme (utf8 "tôi") (utf8 "tôi") (utf8 "tôi") (utf8 "tôi") UNKNOWN UNKNOWN;
               mkMorpheme (utf8 "ăn") (utf8 "ăn") (utf8 "ăn") (utf8 "ăn") UNKNOWN UNKNOWN;
               mkMorpheme (utf8 "bánh_mì") (utf8 "bánh mì") (utf8 "bánh_mì")
                          (utf8 "bánh_mì") UNKNOWN UNKNOWN])
    as (e_low & _ & _); [vm_compute; reflexivity|].
  exists (vietnamese 2%nat), st.
  eexists. split; [vm_compute; reflexivity|].
  split; [vm_compute; reflexivity|].
  repeat split.
Defined.

(** *** The vocabulary that is loaded *)

Lemma dict_keys_set {V} (k : str) (v : V) (d : list (str * V)) :
  dict_keys (dict_set k v d)
  = if decide (k ∈ dict_keys d) then dict_keys d else dict_keys d ++ [k].
Proof.
  induction d as [|[k' v'] d IH]; cbn [dict_set dict_keys map fst].
  - rewrite decide_False by (apply not_elem_of_nil). reflexivity.
  - destruct (decide (k = k')) as [->|Hne].
    + rewrite decide_True by (left). reflexivity.
    + cbn [map fst]. fold (dict_keys (dict_set k v d)). rewrite IH.
      fold (dict_keys d).
      destruct (decide (k ∈ dict_keys d)) as [Hin|Hnin].
      * rewrite decide_True by (right; exact Hin). reflexivity.
      * rewrite decide_False; [reflexivity|].
        intros Hin. apply elem_of_cons in Hin. tauto.
Qed.

(** The keys of a dictionary are the keys that were set, once each. *)
Lemma dict_of_keys {V} (items : list (str * V)) :
  forall d, NoDup (dict_keys d) ->
  NoDup (dict_keys (fold_left (fun d kv => dict_set kv.1 kv.2 d) items d))
  /\ forall k, k ∈ dict_keys (fold_left (fun d kv => dict_set kv.1 kv.2 d) items d)
               <-> k ∈ dict_keys d \/ k ∈ map fst items.
Proof.
  induction items as [|[k0 v0] items IH]; intros d Hd.
  - split; [exact Hd|]. intros k. cbn. rewrite elem_of_nil. tauto.
  - cbn [fold_left map fst].
    assert (Hd' : NoDup (dict_keys (dict_set k0 v0 d))).
    { rewrite dict_keys_set. cbn. destruct (decide (k0 ∈ dict_keys d)); [exact Hd|].
      apply NoDup_app. split; [exact Hd|]. split; [|apply NoDup_singleton].
      intros x Hx Hx'. apply list_elem_of_singleton in Hx'. subst. contradiction. }
    destruct (IH _ Hd') as [Hnd Hin]. split; [exact Hnd|].
    intros k. rewrite Hin, dict_keys_set. cbn.
    rewrite elem_of_cons.
    destruct (decide (k0 ∈ dict_keys d)) as [H0|H0].
    + split; [tauto|]. intros [H|[->|H]]; tauto.
    + rewrite elem_of_app, list_elem_of_singleton. tauto.
Qed.

Lemma zip_count_keys (keys : list str) :
  forall n, map fst (zip keys (seq n (length keys))) = keys.
Proof.
  induction keys as [|k keys IH]; intros n; [reflexivity|].
  cbn. rewrite IH. reflexivity.
Qed.

Lemma insert_by_len_perm (w : str) (l : list str) : insert_by_len w l ≡ₚ w :: l.
Proof.
  induction l as [|x l IH]; [reflexivity|].
  cbn [insert_by_len]. destruct (length w <=? length x)%nat; [reflexivity|].
  rewrite IH. apply perm_swap.
Qed.

Lemma sort_by_len_perm (l : list str) : sort_by_len l ≡ₚ l.
Proof.
  induction l as [|w l IH]; [reflexivity|].
  cbn [sort_by_len]. rewrite insert_by_len_perm, IH. reflexivity.
Qed.

(** The compounds are kept longest first, so that a compound is joined
    before any shorter compound it contains. *)
Lemma insert_by_len_sorted (w : str) (l : list str) :
  StronglySorted (fun a b => (length a <= length b)%nat) l ->
  StronglySorted (fun a b => (length a <= length b)%nat) (insert_by_len w l).
Proof.
  induction 1 as [|x l Hl IH Hx]; cbn [insert_by_len].
  - repeat constructor.
  - destruct (length w <=? length x)%nat eqn:Hw.
    + apply Nat.leb_le in Hw. constructor; [constructor; assumption|].
      constructor; [exact Hw|].
      eapply Forall_impl; [exact Hx|]. intros y Hy. cbv beta in *. lia.
    + apply Nat.leb_gt in Hw. constructor; [exact IH|].
      rewrite insert_by_len_perm. constructor; [lia|exact Hx].
Qed.

Lemma sort_by_len_sorted (l : list str) :
  StronglySorted (fun a b => (length a <= length b)%nat) (sort_by_len l).
Proof.
  induction l as [|w l IH]; [constructor|].
  cbn [sort_by_len]. apply insert_by_len_sorted, IH.
Qed.

Lemma rev_sorted {A} (R : A -> A -> Prop) (l : list A) :
  StronglySorted R l -> StronglySorted (fun a b => R b a) (rev l).
Proof.
  induction 1 as [|x l Hl IH Hx]; [constructor|].
  cbn [rev]. apply StronglySorted_app_2; [|exact IH|repeat constructor].
  intros a b Ha Hb. apply list_elem_of_singleton in Hb. subst b.
  apply list_elem_of_In, in_rev, list_elem_of_In in Ha.
  exact (proj1 (Forall_forall _ _) Hx a Ha).
Qed.

Lemma filter_sorted {A} (R : A -> A -> Prop) (P : A -> Prop)
    `{forall x, Decision (P x)} (l : list A) :
  StronglySorted R l -> StronglySorted R (filter P l).
Proof.
  induction 1 as [|x l Hl IH Hx]; [constructor|].
  rewrite filter_cons. destruct (decide (P x)); [|exact IH].
  constructor; [exact IH|].
  apply Forall_forall. intros y Hy. apply list_elem_of_filter in Hy.
  exact (proj1 (Forall_forall _ _) Hx y (proj2 Hy)).
Qed.

Lemma compounds_longest_first (words : list str) :
  StronglySorted (fun a b => (length b <= length a)%nat) (compounds words).
Proof.
  unfold compounds. apply filter_sorted.
  apply (rev_sorted (fun a b => (length a <= length b)%nat)), sort_by_len_sorted.
Qed.

(** With ["a b"] and ["a b c"] in the file, in this order, the longer
    compound is joined first and ["x a b c"] has the one morpheme
    ["a b c"] after ["x"]. *)
Example longer_compound_first :
  let W := world_with (Ok [[utf8 "a b"]; [utf8 "a b c"]]) in
  let st := snd (construct W Vietnamese initial) in
  known_words st = [utf8 "a b c"; utf8 "a b"]
  /\ map base (match fst (_getMorphemesFromExpr W (vietnamese 2%nat) (utf8 "x a b c") st) with
               | Ok morphs => morphs
               | Raise _ => []
               end)
     = [utf8 "x"; utf8 "a b c"].
Proof. split; vm_compute; reflexivity. Qed.

Lemma known_words_set_next_id (n : loc) (st : State) :
  known_words (set_next_id n st) = known_words st
  /\ known_words_underscored (set_next_id n st) = known_words_underscored st.
Proof. split; reflexivity. Qed.

(** Constructing a Vietnamese morphemizer from a vocabulary file. *)
Lemma construct_loads (W : World) (keys : list str) (st : State) :
  loads W keys ->
  exists st',
    construct W Vietnamese st = (Ok (vietnamese (next_id st)), st')
    /\ known_words st' = known_words st ++ vocabulary keys
    /\ known_words_underscored st'
       = known_words_underscored st ++ map underscore (vocabulary keys)
    /\ next_id st' = S (next_id st).
Proof.
  intros Hloads.
  destruct (init_loads W (next_id st) keys (set_next_id (S (next_id st)) st) Hloads)
    as (st' & Hinit & Hk & Hu & Hf).
  exists st'. split; [apply construct_vietnamese, Hinit|].
  destruct Hf as (Hn & _). auto.
Qed.

(** *** One vocabulary for all instances *)

Lemma join_known_any_instance (a b : loc) (words : list str) :
  forall i e_low st,
    VietnameseMorphemizer.join_known (vietnamese a) words i e_low st
    = VietnameseMorphemizer.join_known (vietnamese b) words i e_low st.
Proof.
  induction words as [|w words IH]; intros i e_low st; [reflexivity|].
  cbn [VietnameseMorphemizer.join_known]. unfold bind, lift, get.
  rewrite !getattr_underscored.
  destruct (index _ i); [apply IH|reflexivity].
Qed.

Lemma segmentation_any_instance (W : World) (a b : loc) (e : str) (st : State) :
  _getMorphemesFromExpr W (vietnamese a) e st = _getMorphemesFromExpr W (vietnamese b) e st.
Proof.
  change (VietnameseMorphemizer._getMorphemesFromExpr W (vietnamese a) e st
          = VietnameseMorphemizer._getMorphemesFromExpr W (vietnamese b) e st).
  unfold VietnameseMorphemizer._getMorphemesFromExpr, bind, lift, get, ret.
  rewrite !getattr_known.
  rewrite (join_known_any_instance a b). reflexivity.
Qed.

(** C10.  Two Vietnamese morphemizers constructed one after the other,
    each from a vocabulary file, are distinct objects without
    attributes of their own: [_known_words] and
    [_known_words_underscored] resolve, for both, to the two list
    objects of the class.  The second construction appends its
    compounds to what the first one left there, so that afterwards the
    lists hold the compounds of both files, and the first instance
    segments every expression exactly as the second does. *)
Theorem vocabulary_is_shared (W1 W2 : World) (keys1 keys2 : list str) (st0 : State) :
  loads W1 keys1 -> loads W2 keys2 ->
  exists v1 st1 v2 st2,
    construct W1 Vietnamese st0 = (Ok v1, st1)
    /\ construct W2 Vietnamese st1 = (Ok v2, st2)
    /\ v1 <> v2
    /\ inst_dict v1 = ∅ /\ inst_dict v2 = ∅
    /\ getattr v1 "_known_words" = Ok known_words_loc
    /\ getattr v2 "_known_words" = Ok known_words_loc
    /\ getattr v1 "_known_words_underscored" = Ok known_words_underscored_loc
    /\ getattr v2 "_known_words_underscored" = Ok known_words_underscored_loc
    /\ known_words st1 = known_words st0 ++ vocabulary keys1
    /\ known_words st2 = known_words st0 ++ vocabulary keys1 ++ vocabulary keys2
    /\ known_words_underscored st2
       = known_words_underscored st0
         ++ map underscore (vocabulary keys1) ++ map underscore (vocabulary keys2)
    /\ forall W e, _getMorphemesFromExpr W v1 e st2 = _getMorphemesFromExpr W v2 e st2.
Proof.
  intros H1 H2.
  destruct (construct_loads W1 keys1 st0 H1) as (st1 & Hc1 & Hk1 & Hu1 & Hn1).
  destruct (construct_loads W2 keys2 st1 H2) as (st2 & Hc2 & Hk2 & Hu2 & Hn2).
  exists (vietnamese (next_id st0)), st1, (vietnamese (next_id st1)), st2.
  split; [exact Hc1|]. split; [exact Hc2|].
  split; [rewrite Hn1; intros H; inversion H; lia|].
  do 6 (split; [reflexivity|]).
  split; [exact Hk1|].
  split; [rewrite Hk2, Hk1, app_assoc; reflexivity|].
  split; [rewrite Hu2, Hu1, app_assoc; reflexivity|].
  intros W e. apply segmentation_any_instance.
Qed.

Lemma vocabulary_is_shared_witness :
  let W1 := world_with (Ok [[utf8 "bánh mì"]; [utf8 "bánh"]]) in
  let W2 := world_with (Ok [[utf8 "ăn"]; [utf8 "xe đạp"]]) in
  exists v1 st1 v2 st2,
    construct W1 Vietnamese initial = (Ok v1, st1)
    /\ construct W2 Vietnamese st1 = (Ok v2, st2)
    /\ known_words st1 = [utf8 "bánh mì"]
    /\ known_words st2 = [utf8 "bánh mì"; utf8 "xe đạp"]
    /\ known_words_underscored st2 = [utf8 "bánh_mì"; utf8 "xe_đạp"].
Proof.
  intros W1 W2.
  destruct (vocabulary_is_shared W1 W2 [utf8 "bánh mì"; utf8 "bánh"]
              [utf8 "ăn"; utf8 "xe đạp"] initial)
    as (v1 & st1 & v2 & st2 & Hc1 & Hc2 & _ & _ & _ & _ & _ & _ & _ & Hk1 & Hk2 & Hu2 & _).
  - eexists. split; [reflexivity|]. split; [reflexivity|].
    split; vm_compute; discriminate.
  - eexists. split; [reflexivity|]. split; [reflexivity|].
    split; vm_compute; discriminate.
  - exists v1, st1, v2, st2.
    split; [exact Hc1|]. split; [exact Hc2|].
    split; [rewrite Hk1; reflexivity|].
    split; [rewrite Hk2; reflexivity|]. rewrite Hu2. reflexivity.
Defined.

(** *** The registry *)

Lemma registry_ok_same (st st' : State) :
  morphemizers st' = morphemizers st ->
  morphemizers_by_name st' = morphemizers_by_name st ->
  registry_ok st -> registry_ok st'.
Proof. unfold registry_ok. intros -> ->. auto. Qed.

Lemma init_frame (W : World) (id : loc) (st : State) :
  only_heap_changed st (snd (VietnameseMorphemizer.__init__ W (vietnamese id) st)).
Proof.
  unfold VietnameseMorphemizer.__init__, Morphemizer.__init__, try_except, bind, lift, ret.
  destruct (frequency_rows W) as [rows|e];
    [|destruct (VietnameseMorphemizer.caught e); apply only_heap_changed_refl].
  destruct (index rows 0) as [row0|e];
    [|destruct (VietnameseMorphemizer.caught e); apply only_heap_changed_refl].
  destruct (index row0 0) as [first|e];
    [|destruct (VietnameseMorphemizer.caught e); apply only_heap_changed_refl].
  destruct (decide (first ≠ VietnameseMorphemizer.study_plan_header));
    [|apply only_heap_changed_refl].
  destruct (comprehension _ rows) as [keys|e];
    [|destruct (VietnameseMorphemizer.caught e); apply only_heap_changed_refl].
  destruct (setKnownWords_spec id
              (dict_keys (dict_of (zip keys (seq 0 (length keys))))) st)
    as (st' & -> & _ & _ & Hf).
  exact Hf.
Qed.

(** A construction takes the next identity and touches neither the
    registry nor the cache. *)
Lemma construct_frame (W : World) (c : class) (st : State) :
  let r := construct W c st in
  next_id (snd r) = S (next_id st)
  /\ morphemizers (snd r) = morphemizers st
  /\ morphemizers_by_name (snd r) = morphemizers_by_name st
  /\ forall v, fst r = Ok v -> v = mkInstance (next_id st) c ∅.
Proof.
  destruct c; try (cbn; repeat split; intros v H; inversion H; reflexivity).
  cbv zeta. unfold construct, bind, new, ret.
  change (mkInstance (next_id st) Vietnamese ∅) with (vietnamese (next_id st)).
  pose proof (init_frame W (next_id st) (set_next_id (S (next_id st)) st)) as Hf.
  destruct (VietnameseMorphemizer.__init__ W _ _) as [[u|e] st'];
    destruct Hf as (Hn & Hm & Hb & _); cbn [fst snd] in *;
    (split; [exact Hn|]; split; [exact Hm|]; split; [exact Hb|]);
    intros v H; inversion H; reflexivity.
Qed.

Lemma construct_plain (W : World) (c : class) (st : State) :
  c <> Vietnamese ->
  construct W c st = (Ok (mkInstance (next_id st) c ∅), set_next_id (S (next_id st)) st).
Proof. destruct c; try reflexivity. contradiction. Qed.

Lemma for_each_named (l : list instance) :
  forall st,
    for_each l (fun m =>
      modify (fun st => set_by_name (<[Morphemizer.getName m := m]> (morphemizers_by_name st)) st))
      st
    = (Ok tt, set_by_name (named l (morphemizers_by_name st)) st).
Proof.
  induction l as [|m l IH]; intros st.
  - destruct st; reflexivity.
  - cbn [for_each]. unfold bind at 1. unfold modify at 1.
    rewrite IH. reflexivity.
Qed.

Lemma next_id_set_next_id (n : loc) (st : State) : next_id (set_next_id n st) = n.
Proof. reflexivity. Qed.

Lemma set_next_id_twice (a b : loc) (st : State) :
  set_next_id a (set_next_id b st) = set_next_id a st.
Proof. reflexivity. Qed.

Lemma getAll_builds (W : World) (st : State) :
  morphemizers st = None ->
  getAllMorphemizers W st
  = match construct W Vietnamese (set_next_id (S (S (S (S (next_id st))))) st) with
    | (Ok _, st5) =>
      (Ok (built (next_id st)),
       set_by_name (named (built (next_id st)) (morphemizers_by_name st5))
                   (set_morphemizers (Some (built (next_id st))) st5))
    | (Raise e, st5) => (Raise e, st5)
    end.
Proof.
  intros Hnone. unfold getAllMorphemizers. unfold bind at 1. unfold get at 1.
  rewrite Hnone.
  unfold bind at 1. rewrite construct_plain by discriminate.
  unfold bind at 1. rewrite construct_plain by discriminate.
  unfold bind at 1. rewrite construct_plain by discriminate.
  unfold bind at 1. rewrite construct_plain by discriminate.
  unfold bind at 1.
  repeat rewrite next_id_set_next_id. repeat rewrite set_next_id_twice.
  pose proof (construct_frame W Vietnamese
                (set_next_id (S (S (S (S (next_id st))))) st)) as Hf.
  cbv zeta in Hf. cbn [next_id set_next_id] in Hf.
  destruct (construct W Vietnamese (set_next_id (S (S (S (S (next_id st))))) st))
    as [[v|e] st5]; [|reflexivity].
  destruct Hf as (_ & _ & _ & Hv). rewrite (Hv v eq_refl).
  unfold bind at 1. unfold modify at 1.
  unfold bind at 1. rewrite for_each_named. reflexivity.
Qed.

(** The names of the five classes are distinct, so that each instance
    is found under its own. *)
Ltac lookup_name :=
  repeat (rewrite lookup_insert;
          let Hn := fresh "Hn" in
          case_decide as Hn;
          [try (exfalso; vm_compute in Hn; discriminate Hn)
          |try (exfalso; apply Hn; reflexivity)]);
  rewrite ?lookup_empty.

Lemma built_named (n : loc) :
  (forall m, m ∈ built n -> named (built n) ∅ !! Morphemizer.getName m = Some m)
  /\ (forall name m, named (built n) ∅ !! name = Some m ->
      m ∈ built n /\ Morphemizer.getName m = name).
Proof.
  unfold named, built. cbn [fold_left Morphemizer.getName inst_class]. split.
  - intros m Hm.
    repeat (apply elem_of_cons in Hm; destruct Hm as [->|Hm]);
      [..|inversion Hm]; cbn [Morphemizer.getName inst_class]; lookup_name;
      reflexivity.
  - intros name m.
    repeat (rewrite lookup_insert;
            let Hn := fresh "Hn" in
            case_decide as Hn;
            [intros H; inversion H; subst; split;
             [repeat constructor|reflexivity]|]).
    rewrite lookup_empty. discriminate.
Qed.

Lemma built_registry_ok (n : loc) (st : State) :
  morphemizers_by_name st = ∅ ->
  registry_ok (set_by_name (named (built n) (morphemizers_by_name st))
                           (set_morphemizers (Some (built n)) st)).
Proof.
  intros ->. unfold registry_ok.
  cbn [morphemizers morphemizers_by_name set_by_name set_morphemizers].
  split; [reflexivity|]. split; [|apply built_named].
  cbn [built map inst_id].
  repeat (apply NoDup_cons; split;
          [rewrite ?elem_of_cons, elem_of_nil; lia|]).
  apply NoDup_nil_2.
Qed.

(** A call of [getAllMorphemizers] keeps the invariant, and what it
    returns is the registry of the state it leaves. *)
Lemma getAll_spec (W : World) (st : State) :
  registry_ok st ->
  registry_ok (snd (getAllMorphemizers W st))
  /\ forall l, fst (getAllMorphemizers W st) = Ok l ->
               morphemizers (snd (getAllMorphemizers W st)) = Some l.
Proof.
  intros Hok. destruct (morphemizers st) as [l0|] eqn:Hm.
  - assert (Hrun : getAllMorphemizers W st = (Ok l0, st)).
    { unfold getAllMorphemizers, bind, get. rewrite Hm. reflexivity. }
    rewrite Hrun. cbn [fst snd]. split; [exact Hok|].
    intros l H. inversion H; subst. exact Hm.
  - rewrite (getAll_builds W st Hm).
    unfold registry_ok in Hok. rewrite Hm in Hok.
    pose proof (construct_frame W Vietnamese
                  (set_next_id (S (S (S (S (next_id st))))) st)) as Hf.
    cbv zeta in Hf.
    destruct (construct W Vietnamese _) as [[v|e] st5];
      destruct Hf as (_ & Hm5 & Hb5 & _); cbn [fst snd] in *.
    + split.
      * apply built_registry_ok. rewrite Hb5. exact Hok.
      * intros l H. inversion H; subst. reflexivity.
    + split; [|discriminate].
      unfold registry_ok. rewrite Hm5, Hb5. cbn. rewrite Hm. exact Hok.
Qed.

Lemma getByName_spec (W : World) (name : str) (st : State) :
  getMorphemizerByName W name st
  = match getAllMorphemizers W st with
    | (Ok _, st') => (Ok (morphemizers_by_name st' !! name), st')
    | (Raise e, st') => (Raise e, st')
    end.
Proof.
  unfold getMorphemizerByName, bind, get, ret.
  destruct (getAllMorphemizers W st) as [[l|e] st']; reflexivity.
Qed.

Lemma getDescription_pure (W : World) (self : instance) (st : State) :
  snd (getDescription W self st) = st.
Proof.
  unfold getDescription. destruct (inst_class self); try reflexivity.
  unfold MecabMorphemizer.getDescription, bind, try_except, lift, ret.
  destruct (getMecabIdentity W); reflexivity.
Qed.

Lemma getMorphemesFromExpr_frame (W : World) (self : instance) (e : str) (st : State) :
  morphemizers (snd (getMorphemesFromExpr W self e st)) = morphemizers st
  /\ morphemizers_by_name (snd (getMorphemesFromExpr W self e st))
     = morphemizers_by_name st.
Proof.
  destruct (cache_get (self, e) (cache st)) as [v|] eqn:Hget.
  - rewrite (getMorphemesFromExpr_hit _ _ _ _ _ Hget). split; reflexivity.
  - rewrite (getMorphemesFromExpr_miss _ _ _ _ Hget).
    destruct (fst (_getMorphemesFromExpr W self e (count_execution st)));
      split; reflexivity.
Qed.

Lemma step_registry_ok (st st' : State) :
  registry_ok st -> step st st' -> registry_ok st'.
Proof.
  intros Hok Hstep. destruct Hstep as [W|W name|W self e|W self|W c].
  - apply getAll_spec, Hok.
  - rewrite getByName_spec.
    pose proof (proj1 (getAll_spec W st Hok)) as H.
    destruct (getAllMorphemizers W st) as [[l|e] st1]; exact H.
  - destruct (getMorphemesFromExpr_frame W self e st) as [Hm Hb].
    exact (registry_ok_same _ _ Hm Hb Hok).
  - rewrite getDescription_pure. exact Hok.
  - destruct (construct_frame W c st) as (_ & Hm & Hb & _).
    exact (registry_ok_same _ _ Hm Hb Hok).
Qed.

Lemma reachable_registry_ok (st : State) : reachable st -> registry_ok st.
Proof.
  induction 1 as [|st st' _ IH Hstep]; [reflexivity|].
  exact (step_registry_ok st st' IH Hstep).
Qed.

Lemma comprehension_raises (rows : list (list str)) (e : exn) :
  comprehension (fun row : list str => index row 0) rows = Raise e -> e = IndexError.
Proof.
  induction rows as [|r rows IH]; cbn [comprehension]; [discriminate|].
  destruct r as [|k r]; [intros H; inversion H; reflexivity|].
  change (index (k :: r) 0) with (Ok (A := str) k). cbv beta iota.
  destruct (comprehension _ rows); [discriminate|].
  intros H. inversion H; subst. apply IH. reflexivity.
Qed.

Lemma knows_more_nil (st : State) : knows_more st st [].
Proof. unfold knows_more. cbn [map]. rewrite !app_nil_r. split; reflexivity. Qed.

Lemma init_spec (W : World) (id : loc) (st : State) :
  exists st',
    VietnameseMorphemizer.__init__ W (vietnamese id) st
    = (match frequency_rows W with
       | Raise e => if VietnameseMorphemizer.caught e then Ok tt else Raise e
       | Ok _ => Ok tt
       end, st')
    /\ knows_more st st' (loaded W)
    /\ only_heap_changed st st'.
Proof.
  unfold VietnameseMorphemizer.__init__, Morphemizer.__init__, try_except, bind, lift, ret.
  unfold loaded, first_columns.
  destruct (frequency_rows W) as [rows|e].
  2:{ exists st. destruct (VietnameseMorphemizer.caught e);
        (split; [reflexivity|split; [apply knows_more_nil|apply only_heap_changed_refl]]). }
  destruct rows as [|r0 rows].
  { exists st. split; [reflexivity|split; [apply knows_more_nil|apply only_heap_changed_refl]]. }
  destruct r0 as [|first r0].
  { exists st. split; [reflexivity|split; [apply knows_more_nil|apply only_heap_changed_refl]]. }
  change (index ((first :: r0) :: rows) 0) with (Ok (A := list str) (first :: r0)).
  cbv beta iota.
  change (index (first :: r0) 0) with (Ok (A := str) first).
  cbv beta iota.
  destruct (comprehension (fun row : list str => index row 0) ((first :: r0) :: rows))
    as [keys|e] eqn:Hkeys.
  - assert (Hfirst : exists keys', keys = first :: keys').
    { cbn [comprehension] in Hkeys.
      change (index (first :: r0) 0) with (Ok (A := str) first) in Hkeys.
      cbv beta iota in Hkeys.
      destruct (comprehension _ rows) as [ks|]; [|discriminate].
      inversion Hkeys. eexists. reflexivity. }
    destruct Hfirst as [keys' ->].
    destruct (decide (first ≠ VietnameseMorphemizer.study_plan_header)) as [Hne|Heq].
    + rewrite decide_False by exact Hne.
      destruct (setKnownWords_spec id
                  (dict_keys (dict_of (zip (first :: keys')
                                           (seq 0 (length (first :: keys')))))) st)
        as (st' & Hset & Hk & Hu & Hf).
      exists st'. rewrite Hset. split; [reflexivity|]. split; [split; assumption|exact Hf].
    + rewrite decide_True by (destruct (decide (first = VietnameseMorphemizer.study_plan_header));
                              [assumption|contradiction]).
      exists st. split; [reflexivity|split; [apply knows_more_nil|apply only_heap_changed_refl]].
  - pose proof (comprehension_raises _ _ Hkeys) as ->.
    exists st.
    destruct (decide (first ≠ VietnameseMorphemizer.study_plan_header));
      (split; [reflexivity|split; [apply knows_more_nil|apply only_heap_changed_refl]]).
Qed.

Lemma construct_vietnamese_outcome (W : World) (st : State) :
  fst (construct W Vietnamese st)
  = match frequency_rows W with
    | Raise e =>
      if VietnameseMorphemizer.caught e then Ok (vietnamese (next_id st)) else Raise e
    | Ok _ => Ok (vietnamese (next_id st))
    end.
Proof.
  destruct (init_spec W (next_id st) (set_next_id (S (next_id st)) st))
    as (st' & Hinit & _).
  unfold construct, bind, new, ret.
  change (mkInstance (next_id st) Vietnamese ∅) with (vietnamese (next_id st)).
  rewrite Hinit. destruct (frequency_rows W) as [rows|e]; [reflexivity|].
  destruct (VietnameseMorphemizer.caught e); reflexivity.
Qed.

(** What a call of [getAllMorphemizers] comes to. *)
Lemma getAll_outcome (W : World) (st : State) :
  if builds W st
  then exists l, fst (getAllMorphemizers W st) = Ok l
  else exists x, frequency_rows W = Raise x
                 /\ fst (getAllMorphemizers W st) = Raise x
                 /\ morphemizers (snd (getAllMorphemizers W st)) = None.
Proof.
  unfold builds. destruct (morphemizers st) as [l0|] eqn:Hm.
  - exists l0. unfold getAllMorphemizers, bind, get. rewrite Hm. reflexivity.
  - rewrite (getAll_builds W st Hm).
    pose proof (construct_frame W Vietnamese
                  (set_next_id (S (S (S (S (next_id st))))) st)) as Hf.
    pose proof (construct_vietnamese_outcome W (set_next_id (S (S (S (S (next_id st))))) st))
      as Hout.
    cbv zeta in Hf.
    destruct (construct W Vietnamese _) as [[v|e] st5]; cbn [fst snd] in *.
    + destruct (frequency_rows W) as [rows|x]; [eexists; reflexivity|].
      destruct (VietnameseMorphemizer.caught x); [eexists; reflexivity|discriminate].
    + destruct (frequency_rows W) as [rows|x]; [discriminate|].
      destruct (VietnameseMorphemizer.caught x); [discriminate|].
      inversion Hout; subst. exists x. split; [reflexivity|]. split; [reflexivity|].
      destruct Hf as (_ & Hm5 & _). rewrite Hm5. exact Hm.
Qed.

Lemma no_class_named_klingon (m : instance) : Morphemizer.getName m <> utf8 "Klingon".
Proof.
  unfold Morphemizer.getName. destruct (inst_class m); vm_compute; discriminate.
Qed.

(** C8, as the code has it.  In every state a run can reach: if the
    registry is built already, or reading the frequency file raises
    nothing but what the Vietnamese morphemizer catches, then
    [getAllMorphemizers] returns; a second call returns the same list
    of the same instances (the same identities, in the same order) and
    changes nothing; the list holds five distinct instances, of the
    classes Space, Mecab, Jieba, CjkChar and Vietnamese in this order;
    each of them is found under the name of its class, and
    [getMorphemizerByName] with ["Klingon"], or with any name that is
    not the name of one of the five, returns [None] without raising,
    after the registry is built and also as the call that builds it.
    Otherwise, the registry not being built and reading the file
    raising something else, [getAllMorphemizers] raises it, and so does
    [getMorphemizerByName] for every name, and the registry stays
    unbuilt. *)
Theorem registry_is_stable (W1 W2 W3 : World) (st : State) :
  reachable st ->
  (builds W1 st = true ->
   exists l st1,
     getAllMorphemizers W1 st = (Ok l, st1)
     /\ getAllMorphemizers W2 st1 = (Ok l, st1)
     /\ map inst_class l = [Space; Mecab; Jieba; CjkChar; Vietnamese]
     /\ NoDup (map inst_id l)
     /\ (forall m, m ∈ l ->
         getMorphemizerByName W3 (Morphemizer.getName m) st1 = (Ok (Some m), st1))
     /\ getMorphemizerByName W3 (utf8 "Klingon") st1 = (Ok None, st1)
     /\ getMorphemizerByName W1 (utf8 "Klingon") st = (Ok None, st1)
     /\ (forall name, ~ In name (map Morphemizer.getName l) ->
         getMorphemizerByName W3 name st1 = (Ok None, st1)))
  /\ (builds W1 st = false ->
      exists x st1,
        frequency_rows W1 = Raise x
        /\ getAllMorphemizers W1 st = (Raise x, st1)
        /\ (forall name, getMorphemizerByName W1 name st = (Raise x, st1))
        /\ morphemizers st1 = None).
Proof.
  intros Hreach.
  pose proof (reachable_registry_ok st Hreach) as Hok.
  destruct (getAll_spec W1 st Hok) as [Hok1 Hm1].
  pose proof (getAll_outcome W1 st) as Hout.
  destruct (getAllMorphemizers W1 st) as [r st1] eqn:Hrun.
  cbn [fst snd] in Hok1, Hm1, Hout.
  split; intros Hb; rewrite Hb in Hout.
  - destruct r as [l|x]; [clear Hout|destruct Hout as [x' Hx]; discriminate Hx].
    exists l, st1. split; [reflexivity|].
    specialize (Hm1 l eq_refl).
    assert (Hagain : forall W, getAllMorphemizers W st1 = (Ok l, st1)).
    { intros W. unfold getAllMorphemizers, bind, get. rewrite Hm1. reflexivity. }
    unfold registry_ok in Hok1. rewrite Hm1 in Hok1.
    destruct Hok1 as (Hclasses & Hids & Hfound & Honly).
    assert (Hklingon : morphemizers_by_name st1 !! utf8 "Klingon" = None).
    { destruct (morphemizers_by_name st1 !! utf8 "Klingon") as [m|] eqn:Hk;
        [|reflexivity].
      destruct (Honly _ _ Hk) as [_ Hname].
      exfalso. exact (no_class_named_klingon m Hname). }
    split; [apply Hagain|]. split; [exact Hclasses|]. split; [exact Hids|].
    split; [|split; [|split]].
    + intros m Hin. rewrite getByName_spec, Hagain, (Hfound m Hin). reflexivity.
    + rewrite getByName_spec, Hagain, Hklingon. reflexivity.
    + rewrite getByName_spec, Hrun, Hklingon. reflexivity.
    + intros name Hname. rewrite getByName_spec, Hagain.
      destruct (morphemizers_by_name st1 !! name) as [m|] eqn:Hm; [|reflexivity].
      destruct (Honly _ _ Hm) as [Hin <-].
      exfalso. apply Hname, in_map, list_elem_of_In, Hin.
  - destruct Hout as (x & Hfile & Hr & Hnone). subst r.
    exists x, st1. split; [exact Hfile|]. split; [reflexivity|].
    split; [|exact Hnone].
    intros name. rewrite getByName_spec, Hrun. reflexivity.
Qed.

Lemma registry_is_stable_witness :
  let W := world_with (Ok [[utf8 "bánh mì"]; [utf8 "bánh"]]) in
  let W' := world_with (Raise PermissionError) in
  (exists l st1,
     getAllMorphemizers W initial = (Ok l, st1)
     /\ getAllMorphemizers W' st1 = (Ok l, st1)
     /\ map inst_id l = [2; 3; 4; 5; 6]%nat
     /\ getMorphemizerByName W' (utf8 "Klingon") st1 = (Ok None, st1)
     /\ getMorphemizerByName W (utf8 "Klingon") initial = (Ok None, st1))
  /\ (exists st1,
        getAllMorphemizers W' initial = (Raise PermissionError, st1)
        /\ getMorphemizerByName W' (utf8 "Klingon") initial
           = (Raise PermissionError, st1)
        /\ morphemizers st1 = None).
Proof.
  intros W W'. split.
  - destruct (proj1 (registry_is_stable W W' W' initial reachable_initial))
      as (l & st1 & H1 & H2 & _ & _ & _ & H3 & H4 & _); [reflexivity|].
    exists l, st1. split; [exact H1|]. split; [exact H2|].
    split; [|split; [exact H3|exact H4]].
    assert (Hl : l = built 2%nat).
    { assert (H : fst (getAllMorphemizers W initial) = Ok l) by (rewrite H1; reflexivity).
      vm_compute in H. inversion H. reflexivity. }
    rewrite Hl. reflexivity.
  - destruct (proj2 (registry_is_stable W' W' W' initial reachable_initial))
      as (x & st1 & Hfile & H1 & H2 & H3); [reflexivity|].
    assert (Hx : x = PermissionError) by (inversion Hfile; reflexivity).
    subst x. exists st1. split; [exact H1|]. split; [apply H2|exact H3].
Defined.

(** With a frequency file that cannot be read and no registry built
    yet, [getMorphemizerByName] raises for ["Klingon"], as
    [getAllMorphemizers] does, and a second call raises again. *)
Lemma lookup_raises_without_registry :
  let W := world_with (Raise PermissionError) in
  let st1 := snd (getMorphemizerByName W (utf8 "Klingon") initial) in
  fst (getMorphemizerByName W (utf8 "Klingon") initial) = Raise PermissionError
  /\ fst (getAllMorphemizers W initial) = Raise PermissionError
  /\ morphemizers st1 = None
  /\ fst (getMorphemizerByName W (utf8 "Klingon") st1) = Raise PermissionError.
Proof. repeat split; vm_compute; reflexivity. Qed.

(** *** Compounds in an expression *)

Lemma loaded_have_space (W : World) :
  Forall (fun w => str_contains SPACE w = true) (loaded W).
Proof.
  unfold loaded. destruct (frequency_rows W) as [rows|]; [|constructor].
  destruct (first_columns rows) as [[|first keys]|]; try constructor.
  destruct (decide _); [constructor|].
  unfold vocabulary, compounds. apply Forall_forall. intros w Hw.
  apply list_elem_of_filter in Hw. apply Hw.
Qed.

Lemma knows_more_heap (st st' : State) : heap st' = heap st -> knows_more st st' [].
Proof.
  intros H. unfold knows_more, known_words, known_words_underscored, deref.
  rewrite H. cbn [map]. rewrite !app_nil_r. split; reflexivity.
Qed.

Lemma knows_more_trans (a b c : State) (ws ws' : list str) :
  knows_more a b ws -> knows_more b c ws' -> knows_more a c (ws ++ ws').
Proof.
  unfold knows_more. intros [Hk Hu] [Hk' Hu'].
  rewrite Hk', Hk, Hu', Hu, map_app, <- !app_assoc. split; reflexivity.
Qed.

Lemma construct_knows_more (W : World) (c : class) (st : State) :
  exists ws, knows_more st (snd (construct W c st)) ws
             /\ Forall (fun w => str_contains SPACE w = true) ws.
Proof.
  destruct c; try (exists []; split; [apply knows_more_heap; reflexivity|constructor]).
  exists (loaded W). split; [|apply loaded_have_space].
  destruct (init_spec W (next_id st) (set_next_id (S (next_id st)) st))
    as (st' & Hinit & Hk & _).
  unfold construct, bind, new, ret.
  change (mkInstance (next_id st) Vietnamese ∅) with (vietnamese (next_id st)).
  rewrite Hinit.
  destruct (frequency_rows W) as [rows|e];
    [|destruct (VietnameseMorphemizer.caught e)]; exact Hk.
Qed.

Lemma getAll_knows_more (W : World) (st : State) :
  exists ws, knows_more st (snd (getAllMorphemizers W st)) ws
             /\ Forall (fun w => str_contains SPACE w = true) ws.
Proof.
  destruct (morphemizers st) as [l0|] eqn:Hm.
  - exists []. split; [|constructor].
    unfold getAllMorphemizers, bind, get. rewrite Hm. apply knows_more_heap. reflexivity.
  - rewrite (getAll_builds W st Hm).
    destruct (construct_knows_more W Vietnamese
                (set_next_id (S (S (S (S (next_id st))))) st)) as (ws & Hk & Hs).
    exists ws. split; [|exact Hs].
    destruct (construct W Vietnamese _) as [[v|e] st5]; exact Hk.
Qed.

Lemma step_knows_more (st st' : State) :
  step st st' ->
  exists ws, knows_more st st' ws /\ Forall (fun w => str_contains SPACE w = true) ws.
Proof.
  intros Hstep. destruct Hstep as [W|W name|W self e|W self|W c].
  - apply getAll_knows_more.
  - rewrite getByName_spec.
    destruct (getAll_knows_more W st) as (ws & Hk & Hs). exists ws. split; [|exact Hs].
    destruct (getAllMorphemizers W st) as [[l|x] st1]; exact Hk.
  - exists []. split; [|constructor]. apply knows_more_heap.
    destruct (cache_get (self, e) (cache st)) as [v|] eqn:Hget.
    + rewrite (getMorphemesFromExpr_hit _ _ _ _ _ Hget). reflexivity.
    + rewrite (getMorphemesFromExpr_miss _ _ _ _ Hget).
      destruct (fst (_getMorphemesFromExpr W self e (count_execution st))); reflexivity.
  - exists []. split; [|constructor]. rewrite getDescription_pure.
    apply knows_more_heap. reflexivity.
  - apply construct_knows_more.
Qed.

Lemma reachable_vocabulary_ok (st : State) : reachable st -> vocabulary_ok st.
Proof.
  induction 1 as [|st st' _ [IHu IHs] Hstep].
  - split; [reflexivity|constructor].
  - destruct (step_knows_more st st' Hstep) as (ws & [Hk Hu] & Hs).
    unfold vocabulary_ok. rewrite Hk, Hu, IHu, map_app. split; [reflexivity|].
    apply Forall_app. split; assumption.
Qed.

(** Replacing one character by another is a map over the string. *)
Lemma replace_char (a b : char) (s : str) :
  str_replace [a] [b] s = map (fun c => if c =? a then b else c) s.
Proof.
  unfold str_replace. induction s as [|c s IH]; [reflexivity|].
  cbn [replace_from startswith length Nat.pred map].
  rewrite (N.eqb_sym a c). destruct (c =? a); cbn [andb app]; rewrite IH; reflexivity.
Qed.

Lemma unmarked_underscore (w : str) : map unmarked (underscore w) = map unmarked w.
Proof.
  unfold underscore. rewrite replace_char, map_map. apply map_ext.
  intros c. unfold unmarked. destruct (c =? SPACE) eqn:Hc; [|reflexivity].
  apply N.eqb_eq in Hc. subst c. reflexivity.
Qed.

Lemma startswith_app (old s : str) :
  startswith old s = true -> exists rest, s = old ++ rest.
Proof.
  revert s. induction old as [|o old IH]; intros s H.
  - exists s. reflexivity.
  - destruct s as [|c s]; [discriminate|]. cbn [startswith] in H.
    apply andb_prop in H. destruct H as [Ho H]. apply N.eqb_eq in Ho. subst c.
    destruct (IH s H) as [rest ->]. exists rest. reflexivity.
Qed.

Lemma replace_from_skip (old new pre rest : str) :
  replace_from old new (pre ++ rest) (length pre) = replace_from old new rest 0.
Proof.
  induction pre as [|c pre IH]; [reflexivity|].
  cbn [app length replace_from]. exact IH.
Qed.

(** Replacing [old] by a string that reads the same once unmarked
    leaves the unmarked string as it was. *)
Lemma replace_unmarked (old new : str) :
  map unmarked new = map unmarked old ->
  forall s, map unmarked (str_replace old new s) = map unmarked s.
Proof.
  intros Hsame. destruct old as [|o old].
  - destruct new; [|discriminate]. intros s. unfold str_replace. cbn [app].
    induction s as [|c s IH]; [reflexivity|]. cbn [flat_map app map] in *.
    rewrite IH. reflexivity.
  - intros s. unfold str_replace.
    induction s as [s IH] using (induction_ltof1 _ (@length N)). unfold ltof in IH.
    destruct s as [|c s]; [reflexivity|].
    cbn [replace_from]. destruct (startswith (o :: old) (c :: s)) eqn:Hstart.
    + destruct (startswith_app _ _ Hstart) as [rest Hrest].
      cbn [app] in Hrest. inversion Hrest; subst c s.
      cbn [length Nat.pred]. rewrite replace_from_skip, map_app, Hsame.
      rewrite IH by (cbn [length]; rewrite length_app; lia).
      rewrite <- map_app. reflexivity.
    + cbn [map]. rewrite IH by (cbn [length]; lia). reflexivity.
Qed.

Lemma join_all_unmarked (known : list str) :
  forall e_low,
    map unmarked (join_all known (map underscore known) e_low) = map unmarked e_low.
Proof.
  unfold join_all. induction known as [|w known IH]; intros e_low; [reflexivity|].
  cbn [map zip zip_with fold_left fst snd]. rewrite IH.
  apply replace_unmarked, unmarked_underscore.
Qed.

Lemma vocabulary_members (keys : list str) :
  NoDup (vocabulary keys)
  /\ forall w, w ∈ vocabulary keys <-> w ∈ keys /\ str_contains SPACE w = true.
Proof.
  unfold vocabulary, compounds, dict_of.
  destruct (dict_of_keys (zip keys (seq 0 (length keys))) [] (NoDup_nil_2))
    as [Hnd Hmem].
  set (ks := dict_keys _) in *.
  assert (Hperm : rev (sort_by_len ks) ≡ₚ ks).
  { rewrite <- Permutation_rev. apply sort_by_len_perm. }
  split.
  - apply NoDup_filter. rewrite Hperm. exact Hnd.
  - intros w. rewrite list_elem_of_filter, Hperm, Hmem, zip_count_keys.
    cbn. rewrite elem_of_nil. tauto.
Qed.

(** A property of the characters of [l2] holds of the characters of
    [l1], which are among them. *)
Lemma Forall_chars (P : char -> Prop) (l1 l2 : str) :
  forallb (fun c => str_contains c l2) l1 = true -> Forall P l2 -> Forall P l1.
Proof.
  intros Hsub H2. apply Forall_forall. intros c Hc.
  apply list_elem_of_In in Hc.
  pose proof (proj1 (forallb_forall _ _) Hsub c Hc) as Hin.
  apply existsb_exists in Hin. destruct Hin as (x & Hx & Heq).
  apply N.eqb_eq in Heq. subst x.
  exact (proj1 (Forall_forall _ _) H2 c (proj2 (list_elem_of_In _ _) Hx)).
Qed.

Lemma startswith_map (f : char -> char) (w : str) :
  forall s, startswith w s = true -> startswith (map f w) (map f s) = true.
Proof.
  induction w as [|a w IH]; intros s; [reflexivity|].
  destruct s as [|b s]; [discriminate|]. cbn [startswith map]. intros H.
  apply andb_prop in H. destruct H as [Hab H]. apply N.eqb_eq in Hab. subst b.
  rewrite N.eqb_refl, (IH s H). reflexivity.
Qed.

Lemma occurs_map (f : char -> char) (w s : str) :
  occurs w s = true -> occurs (map f w) (map f s) = true.
Proof.
  induction s as [|c s IH].
  - cbn [occurs map]. rewrite !orb_false_r. apply (startswith_map f w []).
  - cbn [occurs map]. intros H. apply orb_prop in H. destruct H as [H|H].
    + apply (startswith_map f w (c :: s)) in H. cbn [map] in H.
      rewrite H. reflexivity.
    + rewrite (IH H). apply orb_true_r.
Qed.

(** Replacing a string that does not occur changes nothing. *)
Lemma str_replace_not_occurs (old new s : str) :
  occurs old s = false -> str_replace old new s = s.
Proof.
  destruct old as [|o old]; [destruct s; discriminate|].
  unfold str_replace. induction s as [|c s IH]; [reflexivity|].
  cbn [occurs replace_from]. intros H. apply orb_false_iff in H. destruct H as [Hs H].
  rewrite Hs, (IH H). reflexivity.
Qed.

(** A word that is absent from [e] is not replaced in a string that
    reads as [e] does. *)
Lemma absent_replace (w e s new : str) :
  absent w e = true -> map unmarked s = map unmarked e -> str_replace w new s = s.
Proof.
  unfold absent. intros Ha Hs. apply str_replace_not_occurs.
  destruct (occurs w s) eqn:Hw; [|reflexivity].
  apply (occurs_map unmarked) in Hw. rewrite Hs in Hw. rewrite Hw in Ha. discriminate.
Qed.

(** When one known word [c] is joined in [e] and every other known word
    is absent from it, the loop over the known words joins [c] and
    leaves the rest of [e] as it is, wherever [c] stands in the list. *)
Lemma join_one_compound (c e e' : str) (ws : list str) :
  str_replace c (underscore c) e = e' ->
  str_replace c (underscore c) e' = e' ->
  Forall (fun w => w <> c -> absent w e = true) ws ->
  join_all ws (map underscore ws) e' = e'
  /\ (c ∈ ws -> join_all ws (map underscore ws) e = e').
Proof.
  intros H1 H2 Hall.
  assert (Hsame : map unmarked e' = map unmarked e).
  { rewrite <- H1. apply replace_unmarked, unmarked_underscore. }
  induction Hall as [|w ws Hw Hall [IH1 IH2]]; [split; [reflexivity|]|].
  { intros H. inversion H. }
  unfold join_all in *. cbn [map zip zip_with fold_left fst snd].
  destruct (decide (w = c)) as [->|Hne].
  - rewrite H1, H2. split; [exact IH1|]. intros _. exact IH1.
  - rewrite (absent_replace w e e' _ (Hw Hne) Hsame).
    rewrite (absent_replace w e e _ (Hw Hne) eq_refl).
    split; [exact IH1|]. intros Hin. apply IH2.
    apply elem_of_cons in Hin. destruct Hin as [Heq|Hin]; [|exact Hin].
    exfalso. apply Hne. symmetry. exact Heq.
Qed.

(** C3, as the code has it.  In every state a run can reach, let a
    Vietnamese morphemizer be constructed from a vocabulary file that
    has ["bánh mì"] and ["bánh"] among its entries, and let every other
    entry with a space, of the file or known before, be absent from
    ["tôi ăn bánh mì"], underscores read as spaces; let the Unicode
    tables read the characters involved as the Unicode character
    database does.  Then the known words are those of before followed
    by the compounds of the file, longest first, among them
    ["bánh mì"], with their underscored forms in the other list, entry
    for entry; ["bánh"], which has no space, is not among the known
    words; and for ["tôi ăn bánh mì"] the morphemizer returns three
    morphemes, the third being the single morpheme with base
    ["bánh mì"]: no morpheme ["bánh"] and no morpheme ["mì"]. *)
Theorem compound_is_one_morpheme (W : World) (keys : list str) (st0 : State) :
  reachable st0 ->
  loads W keys ->
  utf8 "bánh mì" ∈ keys -> utf8 "bánh" ∈ keys ->
  Forall (fun w => w <> utf8 "bánh mì" -> str_contains SPACE w = true ->
                   absent w (utf8 "tôi ăn bánh mì") = true)
         (known_words st0 ++ keys) ->
  Forall (same_on (unicode W) UCD.table) (utf8 "tôi ăn bánh mì" ++ [UNDERSCORE]) ->
  exists v st,
    construct W Vietnamese st0 = (Ok v, st)
    /\ known_words st = known_words st0 ++ vocabulary keys
    /\ known_words_underscored st = map underscore (known_words st)
    /\ StronglySorted (fun a b => (length b <= length a)%nat) (vocabulary keys)
    /\ utf8 "bánh mì" ∈ vocabulary keys
    /\ ~ In (utf8 "bánh") (known_words st)
    /\ _getMorphemesFromExpr W v (utf8 "tôi ăn bánh mì") st
       = (Ok [mkMorpheme (utf8 "tôi") (utf8 "tôi") (utf8 "tôi") (utf8 "tôi")
                         UNKNOWN UNKNOWN;
              mkMorpheme (utf8 "ăn") (utf8 "ăn") (utf8 "ăn") (utf8 "ăn")
                         UNKNOWN UNKNOWN;
              mkMorpheme (utf8 "bánh_mì") (utf8 "bánh mì") (utf8 "bánh_mì")
                         (utf8 "bánh_mì") UNKNOWN UNKNOWN], st).
Proof.
  intros Hreach Hloads Hbm _ Hothers HU.
  destruct (reachable_vocabulary_ok st0 Hreach) as [Hu0 Hs0].
  destruct (construct_loads W keys st0 Hloads) as (st & Hc & Hk & Hu & _).
  destruct (vocabulary_members keys) as [_ Hmem].
  assert (Hspace : Forall (fun w => str_contains SPACE w = true) (known_words st)).
  { rewrite Hk. apply Forall_app. split; [exact Hs0|].
    apply Forall_forall. intros w Hw. apply Hmem in Hw. apply Hw. }
  assert (Hpar : known_words_underscored st = map underscore (known_words st)).
  { rewrite Hu, Hk, Hu0, map_app. reflexivity. }
  assert (Hin : utf8 "bánh mì" ∈ vocabulary keys).
  { apply Hmem. split; [exact Hbm|reflexivity]. }
  exists (vietnamese (next_id st0)), st.
  split; [exact Hc|]. split; [exact Hk|]. split; [exact Hpar|].
  split; [apply compounds_longest_first|]. split; [exact Hin|].
  split.
  { intros Hb. apply list_elem_of_In in Hb.
    pose proof (proj1 (Forall_forall _ _) Hspace _ Hb) as H.
    vm_compute in H. discriminate H. }
  change (_getMorphemesFromExpr W (vietnamese (next_id st0)))
    with (VietnameseMorphemizer._getMorphemesFromExpr W (vietnamese (next_id st0))).
  rewrite vietnamese_segmentation by (rewrite Hpar, length_map; reflexivity).
  rewrite Hpar.
  assert (Hlow : str_lower (unicode W) (utf8 "tôi ăn bánh mì") = utf8 "tôi ăn bánh mì").
  { rewrite (str_lower_ext (unicode W) UCD.table (utf8 "tôi ăn bánh mì") eq_refl).
    - vm_compute. reflexivity.
    - exact (Forall_chars _ (utf8 "tôi ăn bánh mì")
               (utf8 "tôi ăn bánh mì" ++ [UNDERSCORE]) eq_refl HU). }
  rewrite Hlow.
  assert (Hjoin : join_all (known_words st) (map underscore (known_words st))
                           (utf8 "tôi ăn bánh mì")
                  = utf8 "tôi ăn bánh_mì").
  { apply (join_one_compound (utf8 "bánh mì")); [reflexivity|reflexivity| |].
    - rewrite Hk. apply Forall_app. apply Forall_app in Hothers.
      destruct Hothers as [Hold Hnew]. split.
      + apply Forall_forall. intros w Hw Hne.
        exact (proj1 (Forall_forall _ _) Hold w Hw Hne
                 (proj1 (Forall_forall _ _) Hs0 w Hw)).
      + apply Forall_forall. intros w Hw Hne. apply Hmem in Hw. destruct Hw as [Hw Hsp].
        exact (proj1 (Forall_forall _ _) Hnew w Hw Hne Hsp).
    - rewrite Hk. apply elem_of_app. right. exact Hin. }
  rewrite Hjoin.
  rewrite (space_ext (unicode W) UCD.table (utf8 "tôi ăn bánh_mì") eq_refl
             (Forall_chars _ (utf8 "tôi ăn bánh_mì")
                (utf8 "tôi ăn bánh mì" ++ [UNDERSCORE]) eq_refl HU)).
  reflexivity.
Qed.

Lemma compound_is_one_morpheme_witness :
  let W0 := world_with (Ok [[utf8 "xe đạp"]; [utf8 "nhà"]]) in
  let W := world_with (Ok [[utf8 "bánh"; utf8 "120"]; [utf8 "ăn cơm"; utf8 "60"];
                           [utf8 "bánh mì"; utf8 "45"]; [utf8 "mì"; utf8 "30"];
                           [utf8 "bánh mì kẹp thịt"; utf8 "2"]]) in
  let st0 := snd (construct W0 Vietnamese initial) in
  exists v st,
    construct W Vietnamese st0 = (Ok v, st)
    /\ known_words st
       = [utf8 "xe đạp"; utf8 "bánh mì kẹp thịt"; utf8 "bánh mì"; utf8 "ăn cơm"]
    /\ map base (match fst (_getMorphemesFromExpr W v (utf8 "tôi ăn bánh mì") st) with
                 | Ok morphs => morphs
                 | Raise _ => []
                 end)
       = [utf8 "tôi"; utf8 "ăn"; utf8 "bánh mì"].
Proof.
  intros W0 W st0.
  destruct (compound_is_one_morpheme W
              [utf8 "bánh"; utf8 "ăn cơm"; utf8 "bánh mì"; utf8 "mì";
               utf8 "bánh mì kẹp thịt"] st0)
    as (v & st & Hc & Hk & _ & _ & _ & _ & Hseg).
  - apply (reachable_step initial); [apply reachable_initial|constructor].
  - eexists. split; [reflexivity|]. split; [reflexivity|].
    split; vm_compute; discriminate.
  - right. right. left.
  - left.
  - change (known_words st0) with [utf8 "xe đạp"].
    repeat (apply Forall_cons; split;
            [intros Hne Hsp;
             first [reflexivity | exfalso; apply Hne; reflexivity | discriminate Hsp]|]).
    apply Forall_nil. trivial.
  - apply Forall_forall. intros c _. repeat split.
  - exists v, st. split; [exact Hc|]. split; [rewrite Hk; reflexivity|].
    rewrite Hseg. reflexivity.
Defined.

(** An entry with an underscore can occur in the expression once an
    earlier entry is joined: [" bánh_"], which is not in
    ["tôi ăn bánh mì"], is in ["tôi ăn bánh_mì"], and is joined in its
    turn, after the longer ["bánh mì"]. *)
Example marked_compound_joins_later :
  let W := world_with (Ok [[utf8 "bánh mì"]; [utf8 "bánh"]; [utf8 " bánh_"]]) in
  let st := snd (construct W Vietnamese initial) in
  known_words st = [utf8 "bánh mì"; utf8 " bánh_"]
  /\ occurs (utf8 " bánh_") (utf8 "tôi ăn bánh mì") = false
  /\ absent (utf8 " bánh_") (utf8 "tôi ăn bánh mì") = false
  /\ map base (match fst (_getMorphemesFromExpr W (vietnamese 2%nat)
                            (utf8 "tôi ăn bánh mì") st) with
               | Ok morphs => morphs
               | Raise _ => []
               end)
     = [utf8 "tôi"; utf8 "ăn bánh mì"].
Proof. repeat split; vm_compute; reflexivity. Qed.

(** With ["ăn bánh"] also in the file, ["ăn bánh"] and ["bánh mì"] are
    both joined in ["tôi ăn bánh mì"], in whichever order, and the
    three words come out as the one morpheme ["ăn bánh mì"]: no
    morpheme has the base ["bánh mì"]. *)
Lemma overlapping_compound :
  let W := world_with (Ok [[utf8 "bánh mì"]; [utf8 "bánh"]; [utf8 "ăn bánh"]]) in
  exists v st,
    construct W Vietnamese initial = (Ok v, st)
    /\ known_words st = [utf8 "ăn bánh"; utf8 "bánh mì"]
    /\ _getMorphemesFromExpr W v (utf8 "tôi ăn bánh mì") st
       = (Ok [mkMorpheme (utf8 "tôi") (utf8 "tôi") (utf8 "tôi") (utf8 "tôi")
                         UNKNOWN UNKNOWN;
              mkMorpheme (utf8 "ăn_bánh_mì") (utf8 "ăn bánh mì") (utf8 "ăn_bánh_mì")
                         (utf8 "ăn_bánh_mì") UNKNOWN UNKNOWN], st)
    /\ forall morphs,
         fst (_getMorphemesFromExpr W v (utf8 "tôi ăn bánh mì") st) = Ok morphs ->
         ~ In (utf8 "bánh mì") (map base morphs).
Proof.
  intros W. exists (vietnamese 2%nat), (snd (construct W Vietnamese initial)).
  split; [vm_compute; reflexivity|].
  split; [vm_compute; reflexivity|].
  split; [vm_compute; reflexivity|].
  intros morphs H. vm_compute in H. inversion H; subst; clear H.
  vm_compute. intros [H|[H|[]]]; discriminate H.
Qed.

(** ** Further properties *)

(** *** What the space morphemizer returns *)

Lemma token_char_spec (U : Unicode) (c : char) :
  token_char U c = true <-> is_space U c = false /\ is_decimal U c = false.
Proof.
  unfold token_char. rewrite andb_true_iff, !negb_true_iff. reflexivity.
Qed.

Lemma greedy_end_tokens (U : Unicode) (rest : str) :
  forall p n, greedy_end U p rest = Some n ->
  (n <= length rest)%nat /\ Forall (fun c => token_char U c = true) (take n rest).
Proof.
  induction rest as [|c rest IH]; intros p n; cbn [greedy_end].
  - destruct (at_boundary U (Some p) (head [])); intros H; inversion H.
    split; [reflexivity|constructor].
  - destruct (token_char U c) eqn:Hc.
    + destruct (greedy_end U c rest) as [m|] eqn:Hm.
      * intros H. inversion H; subst. destruct (IH c m Hm) as [Hle Hall].
        cbn [length take]. split; [lia|]. constructor; assumption.
      * destruct (at_boundary U (Some p) (head (c :: rest))); intros H; inversion H.
        split; [cbn; lia|constructor].
    + destruct (at_boundary U (Some p) (head (c :: rest))); intros H; inversion H.
      split; [cbn; lia|constructor].
Qed.

Lemma match_at_tokens (U : Unicode) (prev : option char) (s : str) (n : nat) :
  match_at U prev s = Some n ->
  (0 < n <= length s)%nat /\ Forall (fun c => token_char U c = true) (take n s).
Proof.
  destruct s as [|c rest]; cbn [match_at]; [discriminate|].
  destruct (at_boundary U prev (Some c) && token_char U c) eqn:Hc; [|discriminate].
  apply andb_prop in Hc. destruct Hc as [_ Hc].
  destruct (greedy_end U c rest) as [m|] eqn:Hm; [|discriminate].
  intros H. inversion H; subst. destruct (greedy_end_tokens U rest c m Hm) as [Hle Hall].
  cbn [length take]. split; [lia|]. constructor; assumption.
Qed.

Lemma findall_from_tokens (U : Unicode) (s : str) :
  forall prev k,
    Forall (fun t => t <> [] /\ Forall (fun c => token_char U c = true) t)
           (findall_from U prev s k).
Proof.
  induction s as [|c s IH]; intros prev k; [constructor|].
  cbn [findall_from]. destruct k as [|k]; [|apply IH].
  destruct (match_at U prev (c :: s)) as [n|] eqn:Hn; [|apply IH].
  constructor; [|apply IH].
  destruct (match_at_tokens U prev (c :: s) n Hn) as [[Hpos _] Hall].
  split; [|exact Hall]. destruct n; [lia|]. discriminate.
Qed.

(** X1.  Every morpheme of the space morphemizer comes from a match of
    the pattern in the expression: a non-empty run of characters of the
    expression, none of them white space or a decimal digit.  Its four
    text fields are the lowered match and both tags are [UNKNOWN]. *)
Theorem space_morphemes_are_clean_tokens (U : Unicode) (e : str) (m : Morpheme) :
  In m (SpaceMorphemizer._getMorphemesFromExpr U e) ->
  exists t,
    In t (findall_words U e)
    /\ t <> []
    /\ Forall (fun c => In c e /\ is_space U c = false /\ is_decimal U c = false) t
    /\ m = mkMorpheme (str_lower U t) (str_lower U t) (str_lower U t) (str_lower U t)
                      UNKNOWN UNKNOWN.
Proof.
  unfold SpaceMorphemizer._getMorphemesFromExpr. cbv zeta. rewrite map_map.
  intros Hm. apply in_map_iff in Hm. destruct Hm as (t & <- & Ht).
  exists t. split; [exact Ht|].
  pose proof (findall_from_tokens U e None 0%nat) as Htok.
  pose proof (findall_from_chars U (fun c => In c e) e None 0%nat) as Hin.
  fold (findall_words U e) in Htok, Hin.
  rewrite Forall_forall in Htok, Hin.
  apply list_elem_of_In in Ht.
  destruct (Htok t Ht) as [Hne Hall].
  split; [exact Hne|]. split; [|reflexivity].
  specialize (Hin (proj2 (Forall_forall _ _) (fun c Hc => proj1 (list_elem_of_In _ _) Hc)) t Ht).
  rewrite Forall_forall in Hall, Hin. apply Forall_forall. intros c Hc.
  split; [apply Hin, Hc|]. apply token_char_spec, Hall, Hc.
Qed.

Lemma space_morphemes_are_clean_tokens_witness :
  exists t,
    In t (findall_words UCD.table (utf8 "Xin chào 2 bạn"))
    /\ t <> []
    /\ str_lower UCD.table t = utf8 "chào".
Proof.
  destruct (space_morphemes_are_clean_tokens UCD.table (utf8 "Xin chào 2 bạn")
              (mkMorpheme (utf8 "chào") (utf8 "chào") (utf8 "chào") (utf8 "chào")
                          UNKNOWN UNKNOWN))
    as (t & Hin & Hne & _ & Hm).
  - vm_compute. right. left. reflexivity.
  - exists t. split; [exact Hin|]. split; [exact Hne|].
    inversion Hm. reflexivity.
Defined.

(** X2.  An expression made of white space and decimal digits only, the
    empty expression among them, has no morphemes. *)
Theorem space_blank_expression (U : Unicode) (e : str) :
  (forall c, In c e -> is_space U c = true \/ is_decimal U c = true) ->
  SpaceMorphemizer._getMorphemesFromExpr U e = [].
Proof.
  intros Hblank.
  destruct (SpaceMorphemizer._getMorphemesFromExpr U e) as [|m l] eqn:Hm; [reflexivity|].
  assert (Hin : In m (SpaceMorphemizer._getMorphemesFromExpr U e))
    by (rewrite Hm; left; reflexivity).
  unfold SpaceMorphemizer._getMorphemesFromExpr in Hin. cbv zeta in Hin.
  rewrite map_map in Hin. apply in_map_iff in Hin. destruct Hin as (t & _ & Ht).
  pose proof (findall_from_tokens U e None 0%nat) as Htok.
  pose proof (findall_from_chars U (fun c => In c e) e None 0%nat) as Hin.
  fold (findall_words U e) in Htok, Hin.
  rewrite Forall_forall in Htok, Hin. apply list_elem_of_In in Ht.
  destruct (Htok t Ht) as [Hne Hall].
  specialize (Hin (proj2 (Forall_forall _ _) (fun c Hc => proj1 (list_elem_of_In _ _) Hc)) t Ht).
  destruct t as [|c t]; [contradiction|].
  apply Forall_cons_1 in Hall. destruct Hall as [Hc _].
  apply Forall_cons_1 in Hin. destruct Hin as [Hce _].
  apply token_char_spec in Hc. destruct Hc as [Hs Hd].
  destruct (Hblank c Hce); congruence.
Qed.

Lemma space_blank_expression_witness :
  SpaceMorphemizer._getMorphemesFromExpr UCD.table (utf8 " 12  2024 ") = [].
Proof.
  apply (space_blank_expression UCD.table).
  intros c Hc. vm_compute in Hc.
  repeat (destruct Hc as [<-|Hc]; [vm_compute; auto|]). destruct Hc.
Defined.

(** The matches lie in the subject one after the other. *)
Lemma findall_from_in_order (U : Unicode) (s : str) :
  forall prev k, concat (findall_from U prev s k) `sublist_of` drop k s.
Proof.
  induction s as [|c s IH]; intros prev k.
  - rewrite drop_nil. reflexivity.
  - cbn [findall_from]. destruct k as [|k]; [|apply IH].
    rewrite drop_0.
    destruct (match_at U prev (c :: s)) as [n|] eqn:Hn.
    + destruct (match_at_tokens U prev (c :: s) n Hn) as [[Hpos _] _].
      destruct n as [|n]; [lia|].
      cbn [concat take Nat.pred app]. apply sublist_skip.
      assert (H : take n s ++ concat (findall_from U (Some c) s n)
                  `sublist_of` take n s ++ drop n s)
        by (apply sublist_app; [reflexivity|apply IH]).
      rewrite take_drop in H. exact H.
    + apply sublist_cons. specialize (IH (Some c) 0%nat).
      rewrite drop_0 in IH. exact IH.
Qed.

(** X3.  The morphemes of the space morphemizer follow the expression
    from left to right: their bases are the lowered matches, and the
    matches, put one after the other, are the expression with
    characters left out, none added, repeated or moved. *)
Theorem space_morphemes_in_order (U : Unicode) (e : str) :
  map base (SpaceMorphemizer._getMorphemesFromExpr U e)
  = map (str_lower U) (findall_words U e)
  /\ concat (findall_words U e) `sublist_of` e.
Proof.
  split.
  - unfold SpaceMorphemizer._getMorphemesFromExpr. cbv zeta.
    induction (findall_words U e) as [|t l IH]; [reflexivity|].
    cbn [map base]. rewrite IH. reflexivity.
  - pose proof (findall_from_in_order U e None 0%nat) as H.
    rewrite drop_0 in H. exact H.
Qed.

(** *** The CJK character morphemizer and jieba *)

Lemma cjk_bases (W : World) (e : str) :
  concat (map base (CjkCharMorphemizer._getMorphemesFromExpr W e))
  = filter (fun c => characters W c = true) e.
Proof.
  unfold CjkCharMorphemizer._getMorphemesFromExpr.
  induction (filter (fun c => characters W c = true) e) as [|c l IH]; [reflexivity|].
  cbn [map base concat app]. rewrite IH. reflexivity.
Qed.

Lemma filter_filter_same {A} (P : A -> Prop) `{forall x, Decision (P x)} (l : list A) :
  filter P (filter P l) = filter P l.
Proof.
  induction l as [|x l IH]; [reflexivity|].
  rewrite (filter_cons P x l). destruct (decide (P x)) as [Hx|Hx]; [|exact IH].
  rewrite (filter_cons_True P x _ Hx), IH. reflexivity.
Qed.

(** X4.  The CJK character morphemizer works character by character:
    the morphemes of two expressions put together are the morphemes of
    the first followed by those of the second; every morpheme is one
    character of the expression that is in the character class, with
    the tags [CJK_CHAR] and [UNKNOWN]; the bases, put one after the
    other, are the expression without the characters outside the class;
    and segmenting these again changes nothing. *)
Theorem cjk_character_by_character (W : World) (e e' : str) :
  CjkCharMorphemizer._getMorphemesFromExpr W (e ++ e')
  = CjkCharMorphemizer._getMorphemesFromExpr W e
    ++ CjkCharMorphemizer._getMorphemesFromExpr W e'
  /\ Forall (fun m => exists c, In c e /\ characters W c = true
                      /\ m = mkMorpheme [c] [c] [c] [c] CJK_CHAR UNKNOWN)
            (CjkCharMorphemizer._getMorphemesFromExpr W e)
  /\ concat (map base (CjkCharMorphemizer._getMorphemesFromExpr W e))
     = filter (fun c => characters W c = true) e
  /\ CjkCharMorphemizer._getMorphemesFromExpr W
       (concat (map base (CjkCharMorphemizer._getMorphemesFromExpr W e)))
     = CjkCharMorphemizer._getMorphemesFromExpr W e.
Proof.
  split; [|split; [|split]].
  - unfold CjkCharMorphemizer._getMorphemesFromExpr.
    rewrite filter_app, map_app. reflexivity.
  - unfold CjkCharMorphemizer._getMorphemesFromExpr.
    apply Forall_forall. intros m Hm. apply list_elem_of_In, in_map_iff in Hm.
    destruct Hm as (c & <- & Hc). apply list_elem_of_In, list_elem_of_filter in Hc.
    exists c. split; [apply list_elem_of_In, Hc|]. split; [apply Hc|reflexivity].
  - apply cjk_bases.
  - rewrite cjk_bases. unfold CjkCharMorphemizer._getMorphemesFromExpr.
    rewrite filter_filter_same. reflexivity.
Qed.

(** X5.  jieba is given the characters of the character class alone,
    which are the bases of the CJK character morphemizer put together;
    what else the expression holds (punctuation, Latin text, white
    space) makes no difference.  Every pair (word, flag) jieba returns
    becomes one morpheme, in order, with the word in the four text
    fields, the flag as its tag and [UNKNOWN] as the secondary tag; an
    exception of jieba is raised to the caller; the state is not
    touched. *)
Theorem jieba_segments_ideographs (W : World) (e : str) (st : State) :
  JiebaMorphemizer._getMorphemesFromExpr W e st
  = (match posseg_cut W (concat (map base (CjkCharMorphemizer._getMorphemesFromExpr W e))) with
     | Ok segments =>
       Ok (map (fun m : str * str => mkMorpheme m.1 m.1 m.1 m.1 m.2 UNKNOWN) segments)
     | Raise x => Raise x
     end, st)
  /\ JiebaMorphemizer._getMorphemesFromExpr W e st
     = JiebaMorphemizer._getMorphemesFromExpr W
         (filter (fun c => characters W c = true) e) st.
Proof.
  unfold JiebaMorphemizer._getMorphemesFromExpr, bind, lift, ret.
  rewrite cjk_bases, filter_filter_same.
  split; [|reflexivity].
  destruct (posseg_cut W _); reflexivity.
Qed.

(** *** The Japanese morphemizer *)

Lemma filter_no_space (e : str) :
  existsb (N.eqb SPACE) e = false -> filter (fun c => c ≠ SPACE) e = e.
Proof.
  induction e as [|c e IH]; [reflexivity|].
  cbn [existsb]. intros H. apply orb_false_iff in H. destruct H as [Hc He].
  rewrite filter_cons_True by (intros ->; rewrite N.eqb_refl in Hc; discriminate).
  rewrite (IH He). reflexivity.
Qed.

(** X6.  MeCab is given the expression with every space (U+0020)
    taken out and nothing else changed, and what it returns or raises
    is passed on as it is; so an expression and the same expression
    with spaces put in anywhere have the same outcome.  The state is
    not touched. *)
Theorem mecab_ignores_spaces (W : World) (e e1 e2 : str) (st : State) :
  MecabMorphemizer._getMorphemesFromExpr W e st
  = (getMorphemesMecab W (filter (fun c => c ≠ SPACE) e), st)
  /\ str_contains SPACE (filter (fun c => c ≠ SPACE) e) = false
  /\ MecabMorphemizer._getMorphemesFromExpr W (e1 ++ SPACE :: e2) st
     = MecabMorphemizer._getMorphemesFromExpr W (e1 ++ e2) st.
Proof.
  assert (Hrun : forall x,
             MecabMorphemizer._getMorphemesFromExpr W x st
             = (getMorphemesMecab W (filter (fun c => c ≠ SPACE) x), st)).
  { intros x. unfold MecabMorphemizer._getMorphemesFromExpr, lift.
    destruct (existsb (N.eqb SPACE) x) eqn:Hx; [reflexivity|].
    rewrite (filter_no_space x Hx). reflexivity. }
  split; [apply Hrun|]. split.
  - unfold str_contains. apply not_true_iff_false. intros H.
    apply existsb_exists in H. destruct H as (c & Hc & Heq).
    apply list_elem_of_In, list_elem_of_filter in Hc. destruct Hc as [Hne _].
    apply Hne. symmetry. apply N.eqb_eq, Heq.
  - rewrite !Hrun, !filter_app.
    rewrite filter_cons_False by (intros H; apply H; reflexivity).
    reflexivity.
Qed.

(** *** The cache in the long run *)

Lemma cache_get_None (key : instance * str)
    (c : list ((instance * str) * list Morpheme)) :
  cache_get key c = None <-> key ∉ c.*1.
Proof.
  induction c as [|[k v] c IH]; cbn [cache_get fmap list_fmap fst].
  - split; [intros _; apply not_elem_of_nil|reflexivity].
  - rewrite not_elem_of_cons. destruct (decide (k = key)) as [->|Hne].
    + split; [discriminate|]. intros [H _]. contradiction.
    + rewrite IH. split; [intros H; split; [congruence|exact H]|tauto].
Qed.

Lemma cache_hit_ok (key : instance * str) (v : list Morpheme)
    (c : list ((instance * str) * list Morpheme)) :
  cache_ok c -> key ∈ c.*1 -> cache_ok (cache_hit key v c).
Proof.
  intros [Hnd Hlen] Hin. unfold cache_hit, cache_ok.
  cbn [fmap list_fmap fst length]. split.
  - apply NoDup_cons. split.
    + intros H. apply list_elem_of_fmap in H. destruct H as ([k w] & Hk & Hf).
      apply list_elem_of_filter in Hf. destruct Hf as [Hne _]. cbn in Hk, Hne.
      congruence.
    + eapply sublist_NoDup; [exact Hnd|].
      apply fmap_sublist, sublist_filter.
  - apply list_elem_of_fmap in Hin. destruct Hin as ([k w] & Hk & Hin).
    cbn in Hk. subst k.
    pose proof (length_filter_lt (fun kv : (instance * str) * list Morpheme => kv.1 ≠ key)
                  c (key, w) Hin) as Hlt.
    cbn in Hlt. specialize (Hlt (fun H => H eq_refl)). lia.
Qed.

Lemma cache_put_ok (key : instance * str) (v : list Morpheme)
    (c : list ((instance * str) * list Morpheme)) :
  cache_ok c -> key ∉ c.*1 -> cache_ok (cache_put key v c).
Proof.
  intros [Hnd Hlen] Hnin. unfold cache_put, cache_ok.
  destruct (N.of_nat (length c) <? maxsize) eqn:Hfull.
  - apply N.ltb_lt in Hfull. cbn [fmap list_fmap fst length]. split.
    + apply NoDup_cons. split; assumption.
    + lia.
  - apply N.ltb_ge in Hfull. rewrite removelast_firstn_len.
    cbn [fmap list_fmap fst length]. split.
    + apply NoDup_cons. split.
      * intros H. apply Hnin.
        eapply elem_of_sublist; [exact H|]. apply fmap_sublist, sublist_take.
      * eapply sublist_NoDup; [exact Hnd|]. apply fmap_sublist, sublist_take.
    + rewrite length_take. unfold maxsize in *. lia.
Qed.

(** A construction leaves the cache and the counter alone. *)
Lemma construct_keeps_cache (W : World) (c : class) (st : State) :
  cache (snd (construct W c st)) = cache st
  /\ executions (snd (construct W c st)) = executions st.
Proof.
  destruct c; try (split; reflexivity).
  unfold construct, bind, new, ret.
  change (mkInstance (next_id st) Vietnamese ∅) with (vietnamese (next_id st)).
  pose proof (init_frame W (next_id st) (set_next_id (S (next_id st)) st)) as Hf.
  destruct (VietnameseMorphemizer.__init__ W _ _) as [[u|e] st'];
    destruct Hf as (_ & _ & _ & Hc & He); cbn [fst snd] in *; auto.
Qed.

Lemma getAll_keeps_cache (W : World) (st : State) :
  cache (snd (getAllMorphemizers W st)) = cache st
  /\ executions (snd (getAllMorphemizers W st)) = executions st.
Proof.
  destruct (morphemizers st) as [l0|] eqn:Hm.
  - unfold getAllMorphemizers, bind, get. rewrite Hm. split; reflexivity.
  - rewrite (getAll_builds W st Hm).
    pose proof (construct_keeps_cache W Vietnamese
                  (set_next_id (S (S (S (S (next_id st))))) st)) as Hc.
    destruct (construct W Vietnamese _) as [[v|e] st5]; exact Hc.
Qed.

Lemma step_cache_ok (st st' : State) :
  cache_ok (cache st) -> step st st' -> cache_ok (cache st').
Proof.
  intros Hok Hstep. destruct Hstep as [W|W name|W self e|W self|W c].
  - rewrite (proj1 (getAll_keeps_cache W st)). exact Hok.
  - rewrite getByName_spec.
    pose proof (proj1 (getAll_keeps_cache W st)) as H.
    destruct (getAllMorphemizers W st) as [[l|x] st1]; cbn [snd] in *;
      rewrite H; exact Hok.
  - destruct (cache_get (self, e) (cache st)) as [v|] eqn:Hget.
    + rewrite (getMorphemesFromExpr_hit _ _ _ _ _ Hget). cbn [snd cache set_cache].
      apply cache_hit_ok; [exact Hok|].
      destruct (decide ((self, e) ∈ (cache st).*1)) as [|Hn]; [assumption|].
      apply cache_get_None in Hn. congruence.
    + rewrite (getMorphemesFromExpr_miss _ _ _ _ Hget).
      destruct (fst (_getMorphemesFromExpr W self e (count_execution st))).
      * cbn [snd cache set_cache]. apply cache_put_ok; [exact Hok|].
        apply cache_get_None, Hget.
      * exact Hok.
  - rewrite getDescription_pure. exact Hok.
  - rewrite (proj1 (construct_keeps_cache W c st)). exact Hok.
Qed.

(** X7.  In every state a run can reach, the cache of
    [getMorphemesFromExpr] holds no pair of instance and expression
    twice and never more than 131072 entries. *)
Theorem cache_stays_bounded (st : State) :
  reachable st ->
  NoDup (map fst (cache st)) /\ N.of_nat (length (cache st)) <= 131072.
Proof.
  intros Hreach.
  assert (Hok : cache_ok (cache st)).
  { induction Hreach as [|st st' _ IH Hstep].
    - split; [apply NoDup_nil_2|cbn; unfold maxsize; lia].
    - exact (step_cache_ok st st' IH Hstep). }
  destruct Hok as [Hnd Hlen]. split; [|exact Hlen].
  assert (Hmap : forall l : list ((instance * str) * list Morpheme), map fst l = l.*1).
  { induction l as [|x l IH]; [reflexivity|]. cbn. rewrite IH. reflexivity. }
  rewrite Hmap. exact Hnd.
Qed.

Lemma cache_stays_bounded_witness :
  let W := world_with (Raise FileNotFoundError) in
  let st1 := snd (getMorphemesFromExpr W (mkInstance 2%nat Space ∅) (utf8 "a b") initial) in
  let st2 := snd (getMorphemesFromExpr W (mkInstance 2%nat Space ∅) (utf8 "a b") st1) in
  N.of_nat (length (cache st2)) <= 131072.
Proof.
  intros W st1 st2.
  apply (cache_stays_bounded st2).
  apply (reachable_step st1); [|constructor].
  apply (reachable_step initial); [apply reachable_initial|constructor].
Defined.

Lemma returned_is_cached (W : World) (self : instance) (e : str) (st st1 : State)
    (morphs : list Morpheme) :
  getMorphemesFromExpr W self e st = (Ok morphs, st1) ->
  cache_get (self, e) (cache st1) = Some morphs.
Proof.
  intros H. destruct (cache_get (self, e) (cache st)) as [v|] eqn:Hget.
  - rewrite (getMorphemesFromExpr_hit _ _ _ _ _ Hget) in H.
    inversion H; subst. apply cache_get_hit.
  - rewrite (getMorphemesFromExpr_miss _ _ _ _ Hget) in H.
    destruct (fst (_getMorphemesFromExpr W self e (count_execution st)));
      [|discriminate].
    inversion H; subst. apply cache_get_put.
Qed.

(** X8.  A call of [getMorphemesFromExpr] that raises (MeCab or jieba
    failing) stores nothing: the cache is as before, the exception is
    the one [_getMorphemesFromExpr] raised, and the next call with the
    same instance and expression enters [_getMorphemesFromExpr] again,
    whatever it then returns. *)
Theorem raising_call_is_not_cached (W W' : World) (self : instance) (e : str)
    (st st1 : State) (x : exn) :
  getMorphemesFromExpr W self e st = (Raise x, st1) ->
  cache st1 = cache st
  /\ executions st1 = S (executions st)
  /\ fst (_getMorphemesFromExpr W self e (count_execution st)) = Raise x
  /\ executions (snd (getMorphemesFromExpr W' self e st1)) = S (S (executions st)).
Proof.
  intros H. destruct (cache_get (self, e) (cache st)) as [v|] eqn:Hget.
  - rewrite (getMorphemesFromExpr_hit _ _ _ _ _ Hget) in H. discriminate.
  - rewrite (getMorphemesFromExpr_miss _ _ _ _ Hget) in H.
    destruct (fst (_getMorphemesFromExpr W self e (count_execution st))) as [v|y] eqn:Hrun;
      [discriminate|].
    inversion H; subst. split; [reflexivity|]. split; [reflexivity|].
    split; [reflexivity|].
    rewrite (getMorphemesFromExpr_miss W' self e (count_execution st) Hget).
    destruct (fst (_getMorphemesFromExpr W' self e _)); reflexivity.
Qed.

Lemma raising_call_is_not_cached_witness :
  let W := world_with (Raise FileNotFoundError) in
  let self := mkInstance 3%nat Mecab ∅ in
  let st1 := snd (getMorphemesFromExpr W self (utf8 "日本語") initial) in
  cache st1 = []
  /\ executions (snd (getMorphemesFromExpr W self (utf8 "日本語") st1)) = 2%nat.
Proof.
  intros W self st1.
  destruct (raising_call_is_not_cached W W self (utf8 "日本語") initial st1
              (RuntimeError "mecab"))
    as (H1 & _ & _ & H2); [reflexivity|].
  split; [exact H1|exact H2].
Defined.

(** X9.  The cache is not told when the vocabulary grows.  After
    [getMorphemesFromExpr] has returned a sequence for an instance and
    an expression, constructing a morphemizer of any class (a
    Vietnamese one appends its compounds to the lists all Vietnamese
    instances read) changes nothing about it: the next call returns
    the sequence of before, from the cache. *)
Theorem cache_survives_construction (W W' W'' : World) (self : instance) (e : str)
    (c : class) (st st1 : State) (morphs : list Morpheme) :
  getMorphemesFromExpr W self e st = (Ok morphs, st1) ->
  fst (getMorphemesFromExpr W'' self e (snd (construct W' c st1))) = Ok morphs
  /\ executions (snd (getMorphemesFromExpr W'' self e (snd (construct W' c st1))))
     = executions st1.
Proof.
  intros H. apply returned_is_cached in H.
  destruct (construct_keeps_cache W' c st1) as [Hc He].
  rewrite <- Hc in H.
  rewrite (getMorphemesFromExpr_hit W'' self e _ morphs H).
  split; [reflexivity|exact He].
Qed.

Lemma cache_survives_construction_witness :
  let W := world_with (Ok [[utf8 "bánh mì"]]) in
  let W' := world_with (Ok [[utf8 "xe đạp"]]) in
  let v := vietnamese 2%nat in
  let st0 := snd (construct W Vietnamese initial) in
  let st1 := snd (getMorphemesFromExpr W v (utf8 "xe đạp") st0) in
  let st2 := snd (construct W' Vietnamese st1) in
  map base (match fst (getMorphemesFromExpr W v (utf8 "xe đạp") st2) with
            | Ok morphs => morphs
            | Raise _ => []
            end)
  = [utf8 "xe"; utf8 "đạp"]
  /\ map base (match fst (_getMorphemesFromExpr W v (utf8 "xe đạp") st2) with
               | Ok morphs => morphs
               | Raise _ => []
               end)
     = [utf8 "xe đạp"].
Proof.
  intros W W' v st0 st1 st2. split; [|vm_compute; reflexivity].
  destruct (cache_survives_construction W W' W v (utf8 "xe đạp") Vietnamese st0 st1
              (SpaceMorphemizer._getMorphemesFromExpr UCD.table (utf8 "xe đạp")))
    as [H _]; [vm_compute; reflexivity|].
  fold st2 in H. rewrite H. vm_compute. reflexivity.
Defined.

(** *** What a construction loads *)

(** X10.  Constructing a Vietnamese morphemizer raises exactly when
    reading the frequency file raises something other than
    [FileNotFoundError] and [IndexError]; in every other case, whatever
    the rows of the file are, it returns the new instance.  The known
    words are then those of before followed by what was loaded, with
    their underscored forms in the other list in the same order: the
    compounds of the file, or nothing when the file is absent, empty,
    has a row without a first column anywhere (then not even the
    compounds before that row) or begins with the header of a study
    plan. *)
Theorem vietnamese_construction (W : World) (st : State) :
  exists st',
    construct W Vietnamese st
    = (match frequency_rows W with
       | Raise e =>
         if VietnameseMorphemizer.caught e then Ok (vietnamese (next_id st)) else Raise e
       | Ok _ => Ok (vietnamese (next_id st))
       end, st')
    /\ known_words st' = known_words st ++ loaded W
    /\ known_words_underscored st'
       = known_words_underscored st ++ map underscore (loaded W)
    /\ next_id st' = S (next_id st).
Proof.
  destruct (init_spec W (next_id st) (set_next_id (S (next_id st)) st))
    as (st' & Hinit & [Hk Hu] & Hf).
  exists st'. unfold construct, bind, new, ret.
  change (mkInstance (next_id st) Vietnamese ∅) with (vietnamese (next_id st)).
  rewrite Hinit. split.
  - destruct (frequency_rows W) as [rows|e]; [reflexivity|].
    destruct (VietnameseMorphemizer.caught e); reflexivity.
  - split; [exact Hk|]. split; [exact Hu|]. apply Hf.
Qed.

(** X11.  A frequency file whose first cell is [#study_plan_frequency]
    is not a vocabulary: whatever follows the cell, rows without
    columns included, the construction returns and the state is as if
    only the instance had been created. *)
Theorem study_plan_is_skipped (W : World) (st : State) (r0 : list str)
    (rows : list (list str)) :
  frequency_rows W = Ok ((utf8 "#study_plan_frequency" :: r0) :: rows) ->
  construct W Vietnamese st
  = (Ok (vietnamese (next_id st)), set_next_id (S (next_id st)) st).
Proof.
  intros H. apply construct_vietnamese.
  unfold VietnameseMorphemizer.__init__, Morphemizer.__init__, try_except, bind, lift, ret.
  rewrite H.
  change (index ((utf8 "#study_plan_frequency" :: r0) :: rows) 0)
    with (Ok (A := list str) (utf8 "#study_plan_frequency" :: r0)).
  cbv beta iota.
  change (index (utf8 "#study_plan_frequency" :: r0) 0)
    with (Ok (A := str) (utf8 "#study_plan_frequency")).
  cbv beta iota.
  rewrite decide_False by (intros Hne; apply Hne; reflexivity).
  reflexivity.
Qed.

Lemma study_plan_is_skipped_witness :
  let W := world_with (Ok [[utf8 "#study_plan_frequency"; utf8 "1"];
                           [utf8 "bánh mì"]; []]) in
  construct W Vietnamese initial = (Ok (vietnamese 2%nat), set_next_id 3%nat initial)
  /\ known_words (set_next_id 3%nat initial) = [].
Proof.
  intros W. split; [|reflexivity].
  apply (study_plan_is_skipped W initial [utf8 "1"] [[utf8 "bánh mì"]; []]).
  reflexivity.
Defined.

(** *** The vocabulary in the long run *)

(** X12.  In every state a run can reach, the two vocabulary lists of
    the Vietnamese morphemizer are parallel (entry for entry, the
    underscored word is the known word with every space replaced by an
    underscore) and every known word has a space; and
    [_getMorphemesFromExpr] of a Vietnamese morphemizer returns for
    every expression: the index into the underscored list is never out
    of range. *)
Theorem vocabulary_lists_stay_parallel (st : State) :
  reachable st ->
  known_words_underscored st = map underscore (known_words st)
  /\ Forall (fun w => str_contains SPACE w = true) (known_words st)
  /\ forall W id e, exists morphs,
       _getMorphemesFromExpr W (vietnamese id) e st = (Ok morphs, st).
Proof.
  intros Hreach. destruct (reachable_vocabulary_ok st Hreach) as [Hu Hs].
  split; [exact Hu|]. split; [exact Hs|].
  intros W id e. eexists.
  change (_getMorphemesFromExpr W (vietnamese id) e)
    with (VietnameseMorphemizer._getMorphemesFromExpr W (vietnamese id) e).
  apply vietnamese_segmentation. rewrite Hu, length_map. reflexivity.
Qed.

Lemma vocabulary_lists_stay_parallel_witness :
  let W := world_with (Ok [[utf8 "bánh mì"]; [utf8 "xe đạp"]; [utf8 "ăn"]]) in
  let st := snd (getAllMorphemizers W initial) in
  known_words_underscored st = map underscore (known_words st)
  /\ known_words st = [utf8 "bánh mì"; utf8 "xe đạp"].
Proof.
  intros W st. split; [|vm_compute; reflexivity].
  apply (vocabulary_lists_stay_parallel st).
  apply (reachable_step initial); [apply reachable_initial|constructor].
Defined.

(** X13.  The vocabulary only grows: whatever is called between two
    states, the known words of the later state begin with the known
    words of the earlier one, in the same order, and so do the
    underscored words; nothing is taken out, replaced or loaded
    afresh. *)
Theorem vocabulary_only_grows (st st' : State) :
  rtc step st st' ->
  exists ws,
    known_words st' = known_words st ++ ws
    /\ known_words_underscored st' = known_words_underscored st ++ map underscore ws.
Proof.
  induction 1 as [st|st st1 st' Hstep _ (ws' & Hk')].
  - exists []. apply knows_more_nil.
  - destruct (step_knows_more st st1 Hstep) as (ws & Hk & _).
    exists (ws ++ ws'). exact (knows_more_trans _ _ _ _ _ Hk Hk').
Qed.

Lemma vocabulary_only_grows_witness :
  let W := world_with (Ok [[utf8 "bánh mì"]]) in
  let st := snd (construct W Vietnamese initial) in
  let st' := snd (construct W Vietnamese st) in
  exists ws, known_words st' = known_words st ++ ws.
Proof.
  intros W st st'.
  destruct (vocabulary_only_grows st st') as (ws & Hk & _).
  - apply rtc_once. constructor.
  - exists ws. exact Hk.
Defined.

(** *** The order of the compounds *)

Lemma filter_rev {A} (P : A -> Prop) `{forall x, Decision (P x)} (l : list A) :
  filter P (rev l) = rev (filter P l).
Proof.
  induction l as [|x l IH]; [reflexivity|].
  cbn [rev]. rewrite filter_app, IH, (filter_cons P x l).
  destruct (decide (P x)) as [Hx|Hx].
  - rewrite (filter_cons_True P x [] Hx). reflexivity.
  - rewrite (filter_cons_False P x [] Hx). cbn. rewrite app_nil_r. reflexivity.
Qed.

Lemma filter_comm {A} (P Q : A -> Prop) `{forall x, Decision (P x)}
    `{forall x, Decision (Q x)} (l : list A) :
  filter P (filter Q l) = filter Q (filter P l).
Proof.
  induction l as [|x l IH]; [reflexivity|].
  rewrite (filter_cons Q x l), (filter_cons P x l).
  destruct (decide (Q x)) as [Hq|Hq]; destruct (decide (P x)) as [Hp|Hp].
  - rewrite (filter_cons_True P x _ Hp), (filter_cons_True Q x _ Hq), IH. reflexivity.
  - rewrite (filter_cons_False P x _ Hp), IH. reflexivity.
  - rewrite (filter_cons_False Q x _ Hq), IH. reflexivity.
  - exact IH.
Qed.

(** Sorting by length keeps the words of one length in their order. *)
Lemma insert_by_len_stable (n : nat) (w : str) (l : list str) :
  filter (fun x => length x = n) (insert_by_len w l)
  = filter (fun x => length x = n) (w :: l).
Proof.
  induction l as [|x l IH]; [reflexivity|].
  cbn [insert_by_len]. destruct (length w <=? length x)%nat eqn:Hw; [reflexivity|].
  apply Nat.leb_gt in Hw.
  rewrite (filter_cons _ x (insert_by_len w l)), IH.
  rewrite (filter_cons _ w (x :: l)), (filter_cons _ w l), (filter_cons _ x l).
  destruct (decide (length x = n)); destruct (decide (length w = n));
    try reflexivity. lia.
Qed.

Lemma sort_by_len_stable (n : nat) (l : list str) :
  filter (fun x => length x = n) (sort_by_len l) = filter (fun x => length x = n) l.
Proof.
  induction l as [|w l IH]; [reflexivity|].
  cbn [sort_by_len]. rewrite insert_by_len_stable.
  rewrite (filter_cons _ w (sort_by_len l)), (filter_cons _ w l), IH. reflexivity.
Qed.

(** X14.  [_setKnownWords] always returns.  It appends to the known
    words exactly the given words that have a space, each as often as
    it is given, and their underscored forms to the other list in the
    same order: longest first, and, among words of one length, in the
    reverse of the order in which they are given. *)
Theorem known_words_order (id : loc) (words : list str) (st : State) :
  exists st' ws,
    VietnameseMorphemizer._setKnownWords (vietnamese id) words st = (Ok tt, st')
    /\ known_words st' = known_words st ++ ws
    /\ known_words_underscored st' = known_words_underscored st ++ map underscore ws
    /\ ws ≡ₚ filter (fun w => str_contains SPACE w = true) words
    /\ StronglySorted (fun a b => (length b <= length a)%nat) ws
    /\ forall n, filter (fun w => length w = n) ws
                 = rev (filter (fun w => length w = n)
                               (filter (fun w => str_contains SPACE w = true) words)).
Proof.
  destruct (setKnownWords_spec id words st) as (st' & Hset & Hk & Hu & _).
  exists st', (compounds words).
  split; [exact Hset|]. split; [exact Hk|]. split; [exact Hu|].
  split; [|split].
  - unfold compounds. apply filter_Permutation.
    rewrite <- Permutation_rev. apply sort_by_len_perm.
  - apply compounds_longest_first.
  - intros n. unfold compounds.
    rewrite (filter_comm (fun w => length w = n)).
    rewrite (filter_rev (fun w => length w = n)), sort_by_len_stable.
    rewrite (filter_rev (fun w => str_contains SPACE w = true)).
    rewrite (filter_comm (fun w => length w = n)). reflexivity.
Qed.

(** *** Joining and the marker *)

(** X15.  In every state a run can reach, the loop over the known words
    returns, and joining the compounds in a string does nothing but
    turn spaces into underscores: the joined string has the length of
    the string, and replacing every underscore by a space, as is done
    for the bases, gives the same for both; for a string without
    underscores it gives the string back. *)
Theorem joining_only_marks_spaces (st : State) (id : loc) (e_low : str) :
  reachable st ->
  let joined := join_all (known_words st) (known_words_underscored st) e_low in
  VietnameseMorphemizer.join_known (vietnamese id) (known_words st) 0 e_low st
  = (Ok joined, st)
  /\ str_replace [UNDERSCORE] [SPACE] joined = str_replace [UNDERSCORE] [SPACE] e_low
  /\ length joined = length e_low
  /\ (str_contains UNDERSCORE e_low = false ->
      str_replace [UNDERSCORE] [SPACE] joined = e_low).
Proof.
  intros Hreach joined. destruct (reachable_vocabulary_ok st Hreach) as [Hu _].
  assert (Hsame : map unmarked joined = map unmarked e_low).
  { subst joined. rewrite Hu. apply join_all_unmarked. }
  assert (Hrep : forall s, str_replace [UNDERSCORE] [SPACE] s = map unmarked s)
    by (intros s; apply replace_char).
  split.
  { rewrite join_known_spec by (rewrite Hu, length_map; lia).
    rewrite drop_0. reflexivity. }
  split; [rewrite !Hrep; exact Hsame|]. split.
  - rewrite <- (length_map unmarked joined), Hsame. apply length_map.
  - intros Hno. rewrite Hrep, Hsame, <- Hrep. apply str_replace_absent, Hno.
Qed.

Lemma joining_only_marks_spaces_witness :
  let W := world_with (Ok [[utf8 "bánh mì"]; [utf8 "ăn bánh"]]) in
  let st := snd (construct W Vietnamese initial) in
  let joined := join_all (known_words st) (known_words_underscored st)
                         (utf8 "tôi ăn bánh mì") in
  joined = utf8 "tôi ăn_bánh_mì"
  /\ str_replace [UNDERSCORE] [SPACE] joined = utf8 "tôi ăn bánh mì".
Proof.
  intros W st joined. split; [vm_compute; reflexivity|].
  apply (joining_only_marks_spaces st 2%nat (utf8 "tôi ăn bánh mì")).
  - apply (reachable_step initial); [apply reachable_initial|constructor].
  - reflexivity.
Defined.

(** *** A registry that could not be built *)

(** X16.  When [getAllMorphemizers] raises, in a state a run can reach,
    it is the exception of reading the frequency file, one that is
    neither [FileNotFoundError] nor [IndexError].  No registry is kept,
    neither the list nor an entry of the name map, although five
    identities are used up; so the next call builds again, and returns
    five new instances if the file can then be read or fails in a way
    [__init__] handles. *)
Theorem failed_build_is_retried (W W' : World) (st st1 : State) (x : exn) :
  reachable st ->
  getAllMorphemizers W st = (Raise x, st1) ->
  frequency_rows W = Raise x
  /\ VietnameseMorphemizer.caught x = false
  /\ morphemizers st1 = None
  /\ morphemizers_by_name st1 = ∅
  /\ next_id st1 = (5 + next_id st)%nat
  /\ ((forall e, frequency_rows W' = Raise e -> VietnameseMorphemizer.caught e = true) ->
      exists st2, getAllMorphemizers W' st1 = (Ok (built (next_id st1)), st2)).
Proof.
  intros Hreach Hrun. pose proof (reachable_registry_ok st Hreach) as Hok.
  unfold registry_ok in Hok.
  destruct (morphemizers st) as [l0|] eqn:Hm.
  { unfold getAllMorphemizers, bind, get in Hrun. rewrite Hm in Hrun. discriminate. }
  rewrite (getAll_builds W st Hm) in Hrun.
  pose proof (construct_frame W Vietnamese
                (set_next_id (S (S (S (S (next_id st))))) st)) as Hf.
  pose proof (construct_vietnamese_outcome W
                (set_next_id (S (S (S (S (next_id st))))) st)) as Hout.
  cbv zeta in Hf.
  destruct (construct W Vietnamese _) as [[v|e] st5]; [discriminate|].
  inversion Hrun; subst e st5; clear Hrun.
  destruct Hf as (Hn & Hm1 & Hb1 & _). cbn [fst snd] in *.
  change (morphemizers (set_next_id _ st)) with (morphemizers st) in Hm1.
  change (morphemizers_by_name (set_next_id _ st)) with (morphemizers_by_name st) in Hb1.
  rewrite Hm in Hm1. rewrite Hok in Hb1.
  assert (Hfile : frequency_rows W = Raise x /\ VietnameseMorphemizer.caught x = false).
  { destruct (frequency_rows W) as [rows|e]; [discriminate|].
    destruct (VietnameseMorphemizer.caught e) eqn:Hc; [discriminate|].
    inversion Hout; subst. split; [reflexivity|exact Hc]. }
  destruct Hfile as [Hfile Hcaught].
  split; [exact Hfile|]. split; [exact Hcaught|]. split; [exact Hm1|].
  split; [exact Hb1|]. split; [exact Hn|].
  intros Hgood. rewrite (getAll_builds W' st1 Hm1).
  pose proof (construct_vietnamese_outcome W'
                (set_next_id (S (S (S (S (next_id st1))))) st1)) as Hout'.
  destruct (construct W' Vietnamese _) as [[v|e] st5]; [eexists; reflexivity|].
  cbn [fst] in Hout'.
  destruct (frequency_rows W') as [rows|e'] eqn:Hfile'; [discriminate|].
  rewrite (Hgood e' eq_refl) in Hout'. discriminate.
Qed.

Lemma failed_build_is_retried_witness :
  let W := world_with (Raise UnicodeDecodeError) in
  let W' := world_with (Ok [[utf8 "bánh mì"]]) in
  let st1 := snd (getAllMorphemizers W initial) in
  morphemizers st1 = None
  /\ exists st2, getAllMorphemizers W' st1 = (Ok (built 7%nat), st2).
Proof.
  intros W W' st1.
  destruct (failed_build_is_retried W W' initial st1 UnicodeDecodeError
              reachable_initial)
    as (_ & _ & Hm & _ & Hn & Hretry); [vm_compute; reflexivity|].
  split; [exact Hm|]. rewrite Hn in Hretry. apply Hretry.
  intros e He. discriminate He.
Defined.

(** *** Every compound of the file once *)

(** X17.  Constructing a Vietnamese morphemizer from a vocabulary file
    appends to the known words every first column of the file that has
    a space, and nothing else; a first column that occurs in several
    rows is appended once. *)
Theorem file_compounds_are_loaded_once (W : World) (keys : list str) (st : State) :
  loads W keys ->
  exists st' ws,
    construct W Vietnamese st = (Ok (vietnamese (next_id st)), st')
    /\ known_words st' = known_words st ++ ws
    /\ known_words_underscored st' = known_words_underscored st ++ map underscore ws
    /\ NoDup ws
    /\ forall w, In w ws <-> In w keys /\ str_contains SPACE w = true.
Proof.
  intros Hloads.
  destruct (construct_loads W keys st Hloads) as (st' & Hc & Hk & Hu & _).
  destruct (vocabulary_members keys) as [Hnd Hmem].
  exists st', (vocabulary keys).
  split; [exact Hc|]. split; [exact Hk|]. split; [exact Hu|]. split; [exact Hnd|].
  intros w. rewrite <- !list_elem_of_In. apply Hmem.
Qed.

Lemma file_compounds_are_loaded_once_witness :
  let W := world_with (Ok [[utf8 "xe đạp"; utf8 "7"]; [utf8 "ăn"];
                           [utf8 "xe đạp"; utf8 "9"]; [utf8 "bánh mì"]]) in
  exists st',
    construct W Vietnamese initial = (Ok (vietnamese 2%nat), st')
    /\ known_words st' = [utf8 "bánh mì"; utf8 "xe đạp"].
Proof.
  intros W.
  destruct (file_compounds_are_loaded_once W
              [utf8 "xe đạp"; utf8 "ăn"; utf8 "xe đạp"; utf8 "bánh mì"] initial)
    as (st' & ws & Hc & Hk & _).
  - eexists. split; [reflexivity|]. split; [reflexivity|].
    split; vm_compute; discriminate.
  - exists st'. split; [exact Hc|].
    assert (Hst : st' = snd (construct W Vietnamese initial)) by (rewrite Hc; reflexivity).
    rewrite Hst. vm_compute. reflexivity.
Defined.

(** *** What can raise *)

(** X18.  In every state a run can reach, [getMorphemesFromExpr]
    returns for every expression and every instance, as the
    constructors make them, of a class other than the MeCab and the
    jieba morphemizer: only the analysers outside can make a
    segmentation raise. *)
Theorem only_the_analysers_raise (W : World) (self : instance) (e : str) (st : State) :
  reachable st ->
  inst_dict self = ∅ ->
  inst_class self <> Mecab -> inst_class self <> Jieba ->
  exists morphs st', getMorphemesFromExpr W self e st = (Ok morphs, st').
Proof.
  intros Hreach Hdict Hm Hj.
  destruct (cache_get (self, e) (cache st)) as [v|] eqn:Hget.
  - rewrite (getMorphemesFromExpr_hit _ _ _ _ _ Hget). eexists. eexists. reflexivity.
  - rewrite (getMorphemesFromExpr_miss _ _ _ _ Hget).
    assert (Hrun : exists morphs,
               fst (_getMorphemesFromExpr W self e (count_execution st)) = Ok morphs).
    { destruct self as [id c d]. cbn in Hdict, Hm, Hj. subst d.
      destruct c; try contradiction; try (eexists; reflexivity).
      destruct (reachable_vocabulary_ok st Hreach) as [Hu _].
      change (_getMorphemesFromExpr W (mkInstance id Vietnamese ∅) e)
        with (VietnameseMorphemizer._getMorphemesFromExpr W (vietnamese id) e).
      rewrite vietnamese_segmentation; [eexists; reflexivity|].
      change (known_words (count_execution st)) with (known_words st).
      change (known_words_underscored (count_execution st))
        with (known_words_underscored st).
      rewrite Hu, length_map. reflexivity. }
    destruct Hrun as [morphs ->]. eexists. eexists. reflexivity.
Qed.

Lemma only_the_analysers_raise_witness :
  let W := world_with (Ok [[utf8 "bánh mì"]]) in
  let st := snd (getAllMorphemizers W initial) in
  exists morphs st',
    getMorphemesFromExpr W (vietnamese 6%nat) (utf8 "ăn bánh mì") st = (Ok morphs, st').
Proof.
  intros W st.
  apply (only_the_analysers_raise W (vietnamese 6%nat) (utf8 "ăn bánh mì") st).
  - apply (reachable_step initial); [apply reachable_initial|constructor].
  - reflexivity.
  - discriminate.
  - discriminate.
Defined.

(** *** The space morphemizer across white space *)

Section Separator.
Variables (U : Unicode) (sep : char) (s2 : str).
Hypothesis sep_no_token : token_char U sep = false.
Hypothesis sep_no_word : is_word U sep = false.

Lemma greedy_end_sep (rest : str) :
  forall p, greedy_end U p (rest ++ sep :: s2) = greedy_end U p rest.
Proof.
  induction rest as [|c rest IH]; intros p; cbn [app greedy_end head].
  - rewrite sep_no_token. unfold at_boundary. cbn [word_at].
    rewrite sep_no_word. reflexivity.
  - rewrite IH. reflexivity.
Qed.

Lemma match_at_sep (prev : option char) (s1 : str) :
  match_at U prev (s1 ++ sep :: s2) = match_at U prev s1.
Proof.
  destruct s1 as [|c s1]; cbn [app match_at].
  - rewrite sep_no_token, andb_false_r. reflexivity.
  - rewrite greedy_end_sep. reflexivity.
Qed.

Lemma findall_from_prev (p p' : option char) (s : str) (k : nat) :
  word_at U p = word_at U p' -> findall_from U p s k = findall_from U p' s k.
Proof.
  intros Hw. destruct s as [|c s]; [reflexivity|]. cbn [findall_from].
  destruct k; [|reflexivity].
  assert (Hm : match_at U p (c :: s) = match_at U p' (c :: s)).
  { cbn [match_at]. unfold at_boundary. rewrite Hw. reflexivity. }
  rewrite Hm. reflexivity.
Qed.

Lemma findall_from_sep (s1 : str) :
  forall prev k, (k <= length s1)%nat ->
  findall_from U prev (s1 ++ sep :: s2) k
  = findall_from U prev s1 k ++ findall_from U None s2 0.
Proof.
  induction s1 as [|c s1 IH]; intros prev k Hk.
  - cbn [length] in Hk. assert (k = 0%nat) as -> by lia.
    assert (Hm : match_at U prev (sep :: s2) = None) by exact (match_at_sep prev []).
    cbn [app findall_from]. rewrite Hm.
    apply findall_from_prev. cbn [word_at]. exact sep_no_word.
  - cbn [length] in Hk.
    change ((c :: s1) ++ sep :: s2) with (c :: (s1 ++ sep :: s2)).
    cbn [findall_from]. destruct k as [|k]; [|apply IH; lia].
    change (c :: (s1 ++ sep :: s2)) with ((c :: s1) ++ sep :: s2).
    rewrite match_at_sep.
    destruct (match_at U prev (c :: s1)) as [n|] eqn:Hn; [|apply IH; lia].
    destruct (match_at_tokens U prev (c :: s1) n Hn) as [[Hpos Hle] _].
    cbn [length] in Hle.
    rewrite take_app_le by (cbn [length]; lia).
    rewrite IH by lia. reflexivity.
Qed.
End Separator.

(** X19.  White space that is no word character separates: the
    morphemes of two expressions with such a character between them
    are the morphemes of the first followed by the morphemes of the
    second. *)
Theorem space_splits_at_white_space (U : Unicode) (sep : char) (e1 e2 : str) :
  is_space U sep = true -> is_word U sep = false ->
  SpaceMorphemizer._getMorphemesFromExpr U (e1 ++ sep :: e2)
  = SpaceMorphemizer._getMorphemesFromExpr U e1
    ++ SpaceMorphemizer._getMorphemesFromExpr U e2.
Proof.
  intros Hs Hw. unfold SpaceMorphemizer._getMorphemesFromExpr, findall_words. cbv zeta.
  rewrite (findall_from_sep U sep e2) by
    (try exact Hw; try (unfold token_char; rewrite Hs; reflexivity); lia).
  rewrite !map_app. reflexivity.
Qed.

Lemma space_splits_at_white_space_witness :
  SpaceMorphemizer._getMorphemesFromExpr UCD.table (utf8 "Xin chào" ++ SPACE :: utf8 "các bạn")
  = SpaceMorphemizer._getMorphemesFromExpr UCD.table (utf8 "Xin chào")
    ++ SpaceMorphemizer._getMorphemesFromExpr UCD.table (utf8 "các bạn").
Proof.
  apply (space_splits_at_white_space UCD.table SPACE); reflexivity.
Defined.

(** *** A full cache *)

Lemma cache_get_app (key : instance * str)
    (c1 c2 : list ((instance * str) * list Morpheme)) :
  cache_get key (c1 ++ c2)
  = match cache_get key c1 with
    | Some v => Some v
    | None => cache_get key c2
    end.
Proof.
  induction c1 as [|[k v] c1 IH]; [reflexivity|].
  cbn [app cache_get]. destruct (decide (k = key)); [reflexivity|exact IH].
Qed.

Lemma map_fst_fmap (c : list ((instance * str) * list Morpheme)) : map fst c = c.*1.
Proof. induction c as [|x c IH]; [reflexivity|]. cbn. rewrite IH. reflexivity. Qed.

(** X20.  When the cache is full (131072 entries) and
    [getMorphemesFromExpr] returns for a pair of instance and
    expression it does not hold, the new entry takes the first place
    and the entry in the last place, the least recently used one, is
    dropped: it is no longer found, and every other entry is found as
    before. *)
Theorem least_recently_used_is_dropped (W : World) (self : instance) (e : str)
    (st st1 : State) (morphs : list Morpheme) :
  NoDup (map fst (cache st)) ->
  N.of_nat (length (cache st)) = 131072 ->
  cache_get (self, e) (cache st) = None ->
  getMorphemesFromExpr W self e st = (Ok morphs, st1) ->
  exists c' kl vl,
    cache st = c' ++ [(kl, vl)]
    /\ cache st1 = ((self, e), morphs) :: c'
    /\ cache_get kl (cache st1) = None
    /\ forall k, k <> kl -> cache_get k (cache st1)
                           = if decide (k = (self, e)) then Some morphs
                             else cache_get k (cache st).
Proof.
  intros Hnd Hlen Hget Hrun.
  rewrite (getMorphemesFromExpr_miss _ _ _ _ Hget) in Hrun.
  destruct (fst (_getMorphemesFromExpr W self e (count_execution st))) as [v|];
    [|discriminate].
  inversion Hrun; subst v st1; clear Hrun.
  cbn [cache set_cache count_execution].
  destruct (cache st) as [|x c] eqn:Hc using rev_ind; [discriminate|].
  clear IHc. destruct x as [kl vl]. exists c, kl, vl.
  split; [reflexivity|].
  assert (Hput : cache_put (self, e) morphs (c ++ [(kl, vl)]) = ((self, e), morphs) :: c).
  { unfold cache_put. rewrite Hlen. unfold maxsize. rewrite N.ltb_irrefl.
    rewrite removelast_last. reflexivity. }
  rewrite Hput. split; [reflexivity|].
  rewrite map_fst_fmap, fmap_app in Hnd. cbn in Hnd.
  apply NoDup_app in Hnd. destruct Hnd as (_ & Hdisj & _).
  assert (Hkl : cache_get kl c = None).
  { apply cache_get_None. intros Hin. apply (Hdisj kl Hin). left. }
  rewrite cache_get_app in Hget.
  destruct (cache_get (self, e) c) eqn:Hget'; [discriminate|].
  cbn [cache_get] in Hget.
  destruct (decide (kl = (self, e))) as [|Hne]; [discriminate|].
  split.
  - cbn [cache_get]. rewrite decide_False by congruence. exact Hkl.
  - intros k Hk. cbn [cache_get].
    destruct (decide ((self, e) = k)) as [<-|Hne'].
    + rewrite decide_True by reflexivity. reflexivity.
    + rewrite decide_False by congruence.
      rewrite cache_get_app. destruct (cache_get k c); [reflexivity|].
      cbn [cache_get]. rewrite decide_False by congruence. reflexivity.
Qed.

Lemma cache_set_cache (c : list ((instance * str) * list Morpheme)) (st : State) :
  cache (set_cache c st) = c.
Proof. reflexivity. Qed.

Lemma nodup_map_inj {A B} (f : A -> B) (l : list A) :
  (forall x y, f x = f y -> x = y) -> NoDup l -> NoDup (map f l).
Proof.
  intros Hinj. induction 1 as [|x l Hx Hl IH]; [constructor|].
  cbn [map]. constructor; [|exact IH].
  intros Hin. apply list_elem_of_In, in_map_iff in Hin. destruct Hin as (y & Hy & Hin).
  apply Hinj in Hy. subst y. apply Hx, list_elem_of_In, Hin.
Qed.

Lemma least_recently_used_is_dropped_witness :
  let W := world_with (Raise FileNotFoundError) in
  let self := mkInstance 0%nat Space ∅ in
  let morphs := SpaceMorphemizer._getMorphemesFromExpr UCD.table (utf8 "a b") in
  let st := set_cache full_cache initial in
  exists st1 c' last,
    getMorphemesFromExpr W self (utf8 "a b") st = (Ok morphs, st1)
    /\ cache st1 = ((self, utf8 "a b"), morphs) :: c'
    /\ full_cache = c' ++ [last].
Proof.
  intros W self morphs st.
  assert (Hnone : cache_get (self, utf8 "a b") (cache st) = None).
  { unfold st. rewrite cache_set_cache. apply cache_get_None. unfold full_cache.
    intros Hin. apply list_elem_of_fmap in Hin. destruct Hin as ([k v] & Hk & Hin).
    apply list_elem_of_In, in_map_iff in Hin. destruct Hin as (i & Hi & _).
    unfold filler in Hi. inversion Hi; subst. cbn in Hk. inversion Hk. }
  assert (Hrun : getMorphemesFromExpr W self (utf8 "a b") st
                 = (Ok morphs,
                    set_cache (cache_put (self, utf8 "a b") morphs full_cache)
                              (count_execution st))).
  { rewrite (getMorphemesFromExpr_miss W self (utf8 "a b") st Hnone).
    unfold st at 2. rewrite cache_set_cache. reflexivity. }
  destruct (least_recently_used_is_dropped W self (utf8 "a b") st
              (set_cache (cache_put (self, utf8 "a b") morphs full_cache)
                         (count_execution st)) morphs)
    as (c' & kl & vl & Hc & Hc1 & _); [| | exact Hnone | exact Hrun |].
  - unfold st. rewrite cache_set_cache. unfold full_cache.
    rewrite map_map. apply nodup_map_inj; [|apply NoDup_seq].
    intros i j Hij. cbn in Hij. inversion Hij. reflexivity.
  - unfold st. rewrite cache_set_cache. unfold full_cache.
    rewrite length_map, length_seq. apply N2Nat.id.
  - eexists. exists c', (kl, vl). split; [exact Hrun|]. split; [exact Hc1|].
    unfold st in Hc. rewrite cache_set_cache in Hc. exact Hc.
Defined.
